(** * vesc_driver: frame codec, packet catalog and stream deframer

    A shallow embedding of [src/vesc_driver/src/vesc_packet.cpp] and
    [src/vesc_driver/src/vesc_interface.cpp].

    Conventions.
    - A [uint8_t] is a [Z] in [0, 256); [std::vector<uint8_t>] is [list Z].
    - An iterator into a buffer is its index ([nat]); [*(it + k) = x] is
      stdpp's list insert, [*(it + k)] is list lookup.
    - [int32_t], [uint32_t], [int16_t], [uint16_t] are [Z] with the
      wrap-around of each conversion written out.
    - [double] is the binary64 primitive float of the kernel.
    - A failed [assert] is [Abort]; behaviour the C++ standard leaves
      undefined (a read outside the owned buffer, a floating-integral
      conversion whose truncated value does not fit) is [Undefined]. *)

From Stdlib Require Import ZArith Lia List String Floats Bool.
From stdpp Require Import base list.
Import ListNotations.

Open Scope Z_scope.

(** ** Outcomes *)

Inductive result (A : Type) : Type :=
| Ok (a : A)
| Abort
| Undefined.
Arguments Ok {A} a.
Arguments Abort {A}.
Arguments Undefined {A}.

Definition rbind {A B : Type} (m : result A) (k : A -> result B) : result B :=
  match m with
  | Ok a => k a
  | Abort => Abort
  | Undefined => Undefined
  end.

Definition assert (b : bool) : result unit := if b then Ok tt else Abort.

Declare Scope result_scope.
Delimit Scope result_scope with result.
Notation "'do' x <- m ; k" := (rbind m (fun x => k))
  (at level 10, x pattern, m at level 100, k at level 200) : result_scope.
Notation "'check' b ; k" := (rbind (assert b) (fun _ => k))
  (at level 10, b at level 100, k at level 200) : result_scope.
Open Scope result_scope.

(** ** Machine integers *)

Definition uint8 (x : Z) : Z := x mod 256.
Definition uint16 (x : Z) : Z := x mod 65536.
Definition uint32 (x : Z) : Z := x mod 4294967296.
Definition int16 (x : Z) : Z :=
  let u := uint16 x in if u <? 32768 then u else u - 65536.
Definition int32 (x : Z) : Z :=
  let u := uint32 x in if u <? 2147483648 then u else u - 4294967296.

(** ** double

    [double_trunc] is the value of a floating-integral conversion before the
    range check: the fractional part is discarded (truncation toward zero).
    NaN and the infinities have no integer value. *)

Definition double_trunc (x : float) : option Z :=
  match Prim2SF x with
  | S754_zero _ => Some 0
  | S754_finite s m e =>
      let a := match e with
               | Z0 => Zpos m
               | Zpos p => Zpos m * 2 ^ Zpos p
               | Zneg p => Zpos m / 2 ^ Zpos p
               end in
      Some (if s then - a else a)
  | S754_infinity _ => None
  | S754_nan => None
  end.

(** [static_cast<int32_t>(x)] for a double [x]. *)
Definition double_to_int32 (x : float) : result Z :=
  match double_trunc x with
  | Some v => if (-2147483648 <=? v) && (v <=? 2147483647) then Ok v else Undefined
  | None => Undefined
  end.

(** [static_cast<int16_t>(x)] for a double [x]. *)
Definition double_to_int16 (x : float) : result Z :=
  match double_trunc x with
  | Some v => if (-32768 <=? v) && (v <=? 32767) then Ok v else Undefined
  | None => Undefined
  end.

(** [static_cast<double>(v)] for an [int16_t] or [int32_t] [v] (exact). *)
Definition double_of_int (v : Z) : float :=
  if v <? 0 then PrimFloat.opp (PrimFloat.of_uint63 (Uint63.of_Z (- v)))
  else PrimFloat.of_uint63 (Uint63.of_Z v).

(** ** Constants of the frame envelope *)

(** Modelled from the spec: the class declaration of [VescFrame]
    (vesc_packet.hpp) is not among the sources. The spec gives the start
    markers (2 small, 3 large), the terminator (3), the largest payload (1024)
    and the envelope sizes: header 2, CRC 2, terminator 1, so that the smallest
    frame has 5 bytes. *)
Definition VESC_MAX_PAYLOAD_SIZE : Z := 1024.
Definition VESC_MIN_FRAME_SIZE : Z := 5.
Definition VESC_MAX_FRAME_SIZE : Z := 6 + VESC_MAX_PAYLOAD_SIZE.
Definition VESC_SOF_VAL_SMALL_FRAME : Z := 2.
Definition VESC_SOF_VAL_LARGE_FRAME : Z := 3.
Definition VESC_EOF_VAL : Z := 3.

(** ** CRC *)

(** Modelled from the spec: [CRC::Parameters], [CRC::Calculate] (crc.hpp) and
    the initialiser of [VescFrame::CRC_TYPE] (vesc_packet.hpp) are not among
    the sources. The spec fixes a 16-bit CRC with polynomial 0x1021, initial
    value 0, no reflection of input or output and no final xor. *)
Record CRC_Parameters : Type := {
  polynomial : Z;
  initialXOR : Z;
  finalXOR : Z;
  reflectInput : bool;
  reflectOutput : bool
}.

Definition CRC_TYPE : CRC_Parameters :=
  {| polynomial := 0x1021; initialXOR := 0x0000; finalXOR := 0x0000;
     reflectInput := false; reflectOutput := false |}.

Fixpoint reflect_bits (width : nat) (x : Z) : Z :=
  match width with
  | O => 0
  | S w => Z.lor (Z.shiftl (Z.land x 1) (Z.of_nat w)) (reflect_bits w (Z.shiftr x 1))
  end.

Definition crc_shift (poly : Z) (crc : Z) : Z :=
  if Z.testbit crc 15
  then Z.land (Z.lxor (Z.shiftl crc 1) poly) 0xFFFF
  else Z.land (Z.shiftl crc 1) 0xFFFF.

Definition crc_update (p : CRC_Parameters) (crc : Z) (b : Z) : Z :=
  let b := if reflectInput p then reflect_bits 8 b else b in
  Nat.iter 8 (crc_shift (polynomial p)) (Z.lxor crc (Z.shiftl b 8)).

Definition CRC_Calculate (data : list Z) (p : CRC_Parameters) : Z :=
  let crc := fold_left (crc_update p) data (initialXOR p) in
  let crc := if reflectOutput p then reflect_bits 16 crc else crc in
  Z.lxor crc (finalXOR p).

(** ** Frames *)

Abbreviation Buffer := (list Z).

(** [frame_] is the owned buffer; [payload_] is the pair of iterators
    [payload_.first], [payload_.second] into it, kept as indices. *)
Record VescFrame : Type := {
  frame_ : Buffer;
  payload_first : nat;
  payload_second : nat
}.

Definition payload (f : VescFrame) : list Z :=
  take (payload_second f - payload_first f)%nat (drop (payload_first f) (frame_ f)).

(** [VescFrame::VescFrame(int payload_size)] *)
Definition VescFrame_int (payload_size : Z) : result VescFrame :=
  check (0 <=? payload_size) && (payload_size <=? 1024);
  let '(frame, first) :=
    if payload_size <? 256 then
      let frame := replicate (Z.to_nat (VESC_MIN_FRAME_SIZE + payload_size)) 0 in
      let frame := <[0%nat := 2]> frame in
      let frame := <[1%nat := uint8 payload_size]> frame in
      (frame, 2%nat)
    else
      let frame := replicate (Z.to_nat (VESC_MIN_FRAME_SIZE + 1 + payload_size)) 0 in
      let frame := <[0%nat := 3]> frame in
      let frame := <[1%nat := uint8 (Z.shiftr payload_size 8)]> frame in
      let frame := <[2%nat := uint8 (Z.land payload_size 0xFF)]> frame in
      (frame, 3%nat) in
  let second := (first + Z.to_nat payload_size)%nat in
  Ok {| frame_ := <[(length frame - 1)%nat := 3]> frame;
        payload_first := first;
        payload_second := second |}.

(** [VescFrame::VescFrame(const BufferRangeConst &frame, const BufferRangeConst &payload)]:
    the ranges are given as the bytes of the frame and the two payload
    offsets relative to [frame.first]. *)
Definition VescFrame_ranges (frame : Buffer) (pfirst psecond : Z) : result VescFrame :=
  check (VESC_MIN_FRAME_SIZE <=? Z.of_nat (length frame));
  check (Z.of_nat (length frame) <=? VESC_MAX_FRAME_SIZE);
  check (psecond - pfirst <=? VESC_MAX_PAYLOAD_SIZE);
  check (0 <? pfirst) && (0 <? Z.of_nat (length frame) - psecond);
  Ok {| frame_ := frame;
        payload_first := Z.to_nat pfirst;
        payload_second := Z.to_nat psecond |}.

(** ** Packets *)

Record VescPacket : Type := {
  name_ : string;
  raw : VescFrame
}.

(** [*(payload_.first + k) = x] *)
Definition poke_payload (p : VescPacket) (k : nat) (x : Z) : VescPacket :=
  {| name_ := name_ p;
     raw := {| frame_ := <[(payload_first (raw p) + k)%nat := x]> (frame_ (raw p));
               payload_first := payload_first (raw p);
               payload_second := payload_second (raw p) |} |}.

(** [*(frame_->end() - k) = x] *)
Definition poke_end (p : VescPacket) (k : nat) (x : Z) : VescPacket :=
  {| name_ := name_ p;
     raw := {| frame_ := <[(length (frame_ (raw p)) - k)%nat := x]> (frame_ (raw p));
               payload_first := payload_first (raw p);
               payload_second := payload_second (raw p) |} |}.

(** [VescPacket::VescPacket(const std::string &name, int payload_size, int payload_id)] *)
Definition VescPacket_id (name : string) (payload_size payload_id : Z) : result VescPacket :=
  do f <- VescFrame_int payload_size;
  check (0 <=? payload_id) && (payload_id <? 256);
  check (0 <? Z.of_nat (payload_second f) - Z.of_nat (payload_first f));
  Ok (poke_payload {| name_ := name; raw := f |} 0 (uint8 payload_id)).

(** [VescPacket::VescPacket(const std::string &name, std::shared_ptr<VescFrame> raw)] *)
Definition VescPacket_raw (name : string) (r : VescFrame) : VescPacket :=
  {| name_ := name; raw := r |}.

(** ** Command ids *)

(** The enumeration [COMM_PACKET_ID] (datatypes.hpp) is not among the
    sources and the spec gives no numeric values, so the catalog is
    parameterised by the table of the ids it uses. *)
Record COMM_PACKET_ID : Type := {
  COMM_FW_VERSION : Z;
  COMM_GET_VALUES : Z;
  COMM_SET_DUTY : Z;
  COMM_SET_CURRENT : Z;
  COMM_SET_CURRENT_BRAKE : Z;
  COMM_SET_RPM : Z;
  COMM_SET_POS : Z;
  COMM_SET_SERVO_POS : Z
}.

(** Every id is a value of an unsigned 8-bit enumeration. *)
Definition ids_in_range (ids : COMM_PACKET_ID) : bool :=
  forallb (fun x => (0 <=? x) && (x <? 256))
    [COMM_FW_VERSION ids; COMM_GET_VALUES ids; COMM_SET_DUTY ids;
     COMM_SET_CURRENT ids; COMM_SET_CURRENT_BRAKE ids; COMM_SET_RPM ids;
     COMM_SET_POS ids; COMM_SET_SERVO_POS ids].

(** The ids of the VESC firmware protocol, used to run the catalog on
    concrete inputs. *)
Definition vesc_ids : COMM_PACKET_ID :=
  {| COMM_FW_VERSION := 0; COMM_GET_VALUES := 4; COMM_SET_DUTY := 5;
     COMM_SET_CURRENT := 6; COMM_SET_CURRENT_BRAKE := 7; COMM_SET_RPM := 8;
     COMM_SET_POS := 9; COMM_SET_SERVO_POS := 12 |}.

(** ** Outgoing commands *)

(** The three statements that close every encoder:
    [crc = CRC::Calculate(payload_.first, distance(payload_), CRC_TYPE)],
    [*(frame_->end() - 3) = crc >> 8], [*(frame_->end() - 2) = crc & 0xFF]. *)
Definition store_crc (p : VescPacket) : VescPacket :=
  let crc := uint16 (CRC_Calculate (payload (raw p)) CRC_TYPE) in
  let p := poke_end p 3 (uint8 (Z.shiftr crc 8)) in
  let p := poke_end p 2 (uint8 (Z.land crc 0xFF)) in
  p.

(** The four statements that store an [int32_t v] at payload bytes 1 to 4. *)
Definition store_int32 (p : VescPacket) (v : Z) : VescPacket :=
  let p := poke_payload p 1 (uint8 (Z.land (Z.shiftr (uint32 v) 24) 0xFF)) in
  let p := poke_payload p 2 (uint8 (Z.land (Z.shiftr (uint32 v) 16) 0xFF)) in
  let p := poke_payload p 3 (uint8 (Z.land (Z.shiftr (uint32 v) 8) 0xFF)) in
  let p := poke_payload p 4 (uint8 (Z.land (uint32 v) 0xFF)) in
  p.

(** The two statements that store an [int16_t v] at payload bytes 1 and 2. *)
Definition store_int16 (p : VescPacket) (v : Z) : VescPacket :=
  let p := poke_payload p 1 (uint8 (Z.land (Z.shiftr (uint16 v) 8) 0xFF)) in
  let p := poke_payload p 2 (uint8 (Z.land (uint16 v) 0xFF)) in
  p.

Section Encoders.

Variable ids : COMM_PACKET_ID.

Definition VescPacketRequestFWVersion : result VescPacket :=
  do p <- VescPacket_id "RequestFWVersion" 1 (COMM_FW_VERSION ids);
  Ok (store_crc p).

Definition VescPacketRequestValues : result VescPacket :=
  do p <- VescPacket_id "RequestValues" 1 (COMM_GET_VALUES ids);
  Ok (store_crc p).

Definition VescPacketSetDuty (duty : float) : result VescPacket :=
  do p <- VescPacket_id "SetDuty" 5 (COMM_SET_DUTY ids);
  do v <- double_to_int32 (duty * 100000.0)%float;
  Ok (store_crc (store_int32 p v)).

Definition VescPacketSetCurrent (current : float) : result VescPacket :=
  do p <- VescPacket_id "SetCurrent" 5 (COMM_SET_CURRENT ids);
  do v <- double_to_int32 (current * 1000.0)%float;
  Ok (store_crc (store_int32 p v)).

Definition VescPacketSetCurrentBrake (current_brake : float) : result VescPacket :=
  do p <- VescPacket_id "SetCurrentBrake" 5 (COMM_SET_CURRENT_BRAKE ids);
  do v <- double_to_int32 (current_brake * 1000.0)%float;
  Ok (store_crc (store_int32 p v)).

Definition VescPacketSetRPM (rpm : float) : result VescPacket :=
  do p <- VescPacket_id "SetRPM" 5 (COMM_SET_RPM ids);
  do v <- double_to_int32 rpm;
  Ok (store_crc (store_int32 p v)).

Definition VescPacketSetPos (pos : float) : result VescPacket :=
  do p <- VescPacket_id "SetPos" 5 (COMM_SET_POS ids);
  do v <- double_to_int32 (pos * 1000000.0)%float;
  Ok (store_crc (store_int32 p v)).

Definition VescPacketSetServoPos (servo_pos : float) : result VescPacket :=
  do p <- VescPacket_id "SetServoPos" 3 (COMM_SET_SERVO_POS ids);
  do v <- double_to_int16 (servo_pos * 1000.0)%float;
  Ok (store_crc (store_int16 p v)).

End Encoders.

(** ** The link driver's send methods ([VescInterface::requestFWVersion],
    [requestState], [setDutyCycle], ...): each builds one packet and hands
    [packet.frame()] to the transport. *)

Inductive request : Type :=
| requestFWVersion
| requestState
| setDutyCycle (duty_cycle : float)
| setCurrent (current : float)
| setBrake (brake : float)
| setSpeed (speed : float)
| setPosition (position : float)
| setServo (servo : float).

Definition packet_of (ids : COMM_PACKET_ID) (r : request) : result VescPacket :=
  match r with
  | requestFWVersion => VescPacketRequestFWVersion ids
  | requestState => VescPacketRequestValues ids
  | setDutyCycle duty_cycle => VescPacketSetDuty ids duty_cycle
  | setCurrent current => VescPacketSetCurrent ids current
  | setBrake brake => VescPacketSetCurrentBrake ids brake
  | setSpeed speed => VescPacketSetRPM ids speed
  | setPosition position => VescPacketSetPos ids position
  | setServo servo => VescPacketSetServoPos ids servo
  end.

(** ** Reference encodings used in the statements *)

(** The big-endian bytes of an unsigned 32-bit and 16-bit value. *)
Definition be32_bytes (u : Z) : list Z :=
  [u / 2 ^ 24 mod 256; u / 2 ^ 16 mod 256; u / 2 ^ 8 mod 256; u mod 256].
Definition be16_bytes (u : Z) : list Z :=
  [u / 2 ^ 8 mod 256; u mod 256].

(** Rounding to the nearest integer (halves away from zero), the reading of
    [round] in the catalog table of the spec. *)
Definition double_round (x : float) : option Z :=
  match Prim2SF x with
  | S754_zero _ => Some 0
  | S754_finite s m e =>
      let a := match e with
               | Z0 => Zpos m
               | Zpos p => Zpos m * 2 ^ Zpos p
               | Zneg p => (2 * Zpos m + 2 ^ Zpos p) / (2 * 2 ^ Zpos p)
               end in
      Some (if s then - a else a)
  | S754_infinity _ => None
  | S754_nan => None
  end.

(** The frame of a packet with payload [pl] of fewer than 256 bytes whose
    CRC field holds [crc]. *)
Definition small_frame (pl : list Z) (crc : Z) : list Z :=
  [VESC_SOF_VAL_SMALL_FRAME; Z.of_nat (length pl)] ++ pl ++
  [crc / 256; crc mod 256; VESC_EOF_VAL].

Definition small_packet (name : string) (pl : list Z) : VescPacket :=
  {| name_ := name;
     raw := {| frame_ := small_frame pl (CRC_Calculate pl CRC_TYPE);
               payload_first := 2;
               payload_second := 2 + length pl |} |}.

(** ** Reads through the payload pointer *)

(** A decoder reads [*(payload_.first + k)] with no bounds check. [Traced]
    pairs the outcome of a computation with the offsets [k] it dereferenced,
    in order. A read that falls outside the owned buffer [frame_] is
    undefined behaviour: the outcome is [Undefined] and nothing is read after
    it. *)
Record Traced (A : Type) : Type := {
  outcome : result A;
  reads : list nat
}.
Arguments outcome {A} t.
Arguments reads {A} t.

Definition tret {A : Type} (a : A) : Traced A :=
  {| outcome := Ok a; reads := [] |}.

(** The reads [ks] happened before those of [t]. *)
Definition after_reads {A : Type} (ks : list nat) (t : Traced A) : Traced A :=
  {| outcome := outcome t; reads := ks ++ reads t |}.

Definition tbind {A B : Type} (m : Traced A) (k : A -> Traced B) : Traced B :=
  match outcome m with
  | Ok a => after_reads (reads m) (k a)
  | Abort => {| outcome := Abort; reads := reads m |}
  | Undefined => {| outcome := Undefined; reads := reads m |}
  end.

Declare Scope traced_scope.
Delimit Scope traced_scope with traced.
Notation "'rd' x <- m ; k" := (tbind m (fun x => k))
  (at level 10, x pattern, m at level 100, k at level 200) : traced_scope.
Open Scope traced_scope.

(** [*(payload_.first + k)] *)
Definition deref (f : VescFrame) (k : nat) : Traced Z :=
  {| outcome := match frame_ f !! (payload_first f + k)%nat with
                | Some b => Ok b
                | None => Undefined
                end;
     reads := [k] |}.

Fixpoint deref_all (f : VescFrame) (ks : list nat) : Traced (list Z) :=
  match ks with
  | [] => tret []
  | k :: ks' => rd b <- deref f k; rd bs <- deref_all f ks'; tret (b :: bs)
  end.

(** ** Firmware version *)

Record FWVersion : Type := {
  fw_packet : VescPacket;
  major_ : Z;
  minor_ : Z;
  hwname_ : list Z;
  uuid_ : list Z;
  paired_ : bool;
  devVersion_ : Z
}.

(** The loop [for (int i = 0; *(payload_.first + 3 + i) != 0x00; i++)
    { j = i; hwname_ += *(payload_.first + 3 + i); }]. [mem] is the owned
    buffer from [payload_.first + 3 + i] on; when it is exhausted the
    condition reads outside the buffer. The result is the final [j] and
    [hwname_]. *)
Fixpoint hwname_loop (mem : list Z) (i j : nat) (hwname : list Z)
  : Traced (nat * list Z) :=
  match mem with
  | [] => {| outcome := Undefined; reads := [(3 + i)%nat] |}
  | c :: mem' =>
      if c =? 0x00 then {| outcome := Ok (j, hwname); reads := [(3 + i)%nat] |}
      else after_reads [(3 + i)%nat; (3 + i)%nat]
             (hwname_loop mem' (S i) i (hwname ++ [c]))
  end.

(** [VescPacketFWVersion::VescPacketFWVersion(std::shared_ptr<VescFrame> raw)] *)
Definition VescPacketFWVersion (r : VescFrame) : Traced FWVersion :=
  rd major <- deref r 1;
  rd minor <- deref r 2;
  rd jn <- hwname_loop (drop (payload_first r + 3) (frame_ r)) 0 0 [];
  let j := S (fst jn) in
  rd uuid <- deref_all r (map (fun u => (3 + j + 1 + u)%nat) (seq 0 12));
  rd paired <- deref r (3 + j + 1 + 12);
  rd devVersion <- deref r (3 + j + 2 + 12 + 1);
  tret {| fw_packet := VescPacket_raw "FWVersion" r;
          major_ := major;
          minor_ := minor;
          hwname_ := snd jn;
          uuid_ := uuid;
          paired_ := negb (paired =? 0);
          devVersion_ := devVersion |}.

(** Offsets read by the loop over a name of [n] characters that starts at
    loop index [i]: each character twice (condition and body), then the
    terminator. *)
Definition name_reads (i n : nat) : list nat :=
  flat_map (fun k => [k; k]) (seq (3 + i) n) ++ [(3 + i + n)%nat].

(** ** Values *)

(** [VescPacketValues::VescPacketValues(std::shared_ptr<VescFrame> raw)] *)
Definition VescPacketValues (r : VescFrame) : VescPacket :=
  VescPacket_raw "Values" r.

(** The expression every 16-bit accessor evaluates:
    [static_cast<int16_t>((uint16_t(p[k]) << 8) + uint16_t(p[k + 1]))]. *)
Definition read_int16 (p : VescPacket) (k : nat) : Traced Z :=
  rd b1 <- deref (raw p) k;
  rd b0 <- deref (raw p) (k + 1);
  tret (int16 (Z.shiftl (uint16 b1) 8 + uint16 b0)).

(** The expression every 32-bit accessor evaluates:
    [static_cast<int32_t>((uint32_t(p[k]) << 24) + (uint32_t(p[k + 1]) << 16)
     + (uint32_t(p[k + 2]) << 8) + uint32_t(p[k + 3]))]. *)
Definition read_int32 (p : VescPacket) (k : nat) : Traced Z :=
  rd b3 <- deref (raw p) k;
  rd b2 <- deref (raw p) (k + 1);
  rd b1 <- deref (raw p) (k + 2);
  rd b0 <- deref (raw p) (k + 3);
  tret (int32 (uint32 (uint32 (uint32 (Z.shiftl (uint32 b3) 24)
                                 + uint32 (Z.shiftl (uint32 b2) 16))
                         + uint32 (Z.shiftl (uint32 b1) 8))
                 + uint32 b0)).

Definition scaled (v : Traced Z) (divisor : float) : Traced float :=
  rd x <- v; tret (double_of_int x / divisor)%float.

Definition temp_fet (p : VescPacket) : Traced float := scaled (read_int16 p 1) 10.0.
Definition temp_motor (p : VescPacket) : Traced float := scaled (read_int16 p 3) 10.0.
Definition avg_motor_current (p : VescPacket) : Traced float := scaled (read_int32 p 5) 100.0.
Definition avg_input_current (p : VescPacket) : Traced float := scaled (read_int32 p 9) 100.0.
Definition avg_id (p : VescPacket) : Traced float := scaled (read_int32 p 13) 100.0.
Definition avg_iq (p : VescPacket) : Traced float := scaled (read_int32 p 17) 100.0.
Definition duty_cycle_now (p : VescPacket) : Traced float := scaled (read_int16 p 21) 1000.0.
Definition rpm (p : VescPacket) : Traced float := scaled (read_int32 p 23) 1.0.
Definition v_in (p : VescPacket) : Traced float := scaled (read_int16 p 27) 10.0.
Definition amp_hours (p : VescPacket) : Traced float := scaled (read_int32 p 29) 1e4.
Definition amp_hours_charged (p : VescPacket) : Traced float := scaled (read_int32 p 33) 1e4.
Definition watt_hours (p : VescPacket) : Traced float := scaled (read_int32 p 37) 1e4.
Definition watt_hours_charged (p : VescPacket) : Traced float := scaled (read_int32 p 41) 1e4.
Definition tachometer (p : VescPacket) : Traced Z := read_int32 p 45.
Definition tachometer_abs (p : VescPacket) : Traced Z := read_int32 p 49.
Definition fault_code (p : VescPacket) : Traced Z := deref (raw p) 53.
Definition pid_pos_now (p : VescPacket) : Traced float := scaled (read_int32 p 54) 1e6.
Definition controller_id (p : VescPacket) : Traced Z := deref (raw p) 58.
Definition temp_mos1 (p : VescPacket) : Traced float := scaled (read_int16 p 59) 10.0.
Definition temp_mos2 (p : VescPacket) : Traced float := scaled (read_int16 p 61) 10.0.
Definition temp_mos3 (p : VescPacket) : Traced float := scaled (read_int16 p 63) 10.0.
Definition avg_vd (p : VescPacket) : Traced float := scaled (read_int32 p 65) 1e3.
Definition avg_vq (p : VescPacket) : Traced float := scaled (read_int32 p 69) 1e3.

(** The value of four bytes read as a big-endian signed 32-bit integer. *)
Definition be_int32 (b3 b2 b1 b0 : Z) : Z :=
  int32 (b3 * 2 ^ 24 + b2 * 2 ^ 16 + b1 * 2 ^ 8 + b0).

(** ** Stream deframer *)

(** What one pass of [packet_creation_thread] does to the outside world, in
    order: it takes [buffer_mutex_], calls [packet_handler_] on each packet,
    releases the mutex and sleeps. *)
Inductive event : Type :=
| EvLock
| EvHandler (p : VescPacket)
| EvUnlock
| EvSleep.

(** The variables of the inner loop: the cursor [iter] (an index into
    [buffer_]), [bytes_needed], and the events so far. *)
Record scan_state : Type := {
  iter : nat;
  bytes_needed : Z;
  trace : list event
}.

(** After an iteration the loop goes on, or has left (the loop condition
    failed or [break] was taken), or has moved [iter] past [buffer_.end()],
    which is undefined behaviour. *)
Inductive loop_state : Type :=
| Running (s : scan_state)
| Exited (s : scan_state)
| Overrun (s : scan_state).

Record pass_result : Type := {
  buffer_after : Buffer;
  bytes_needed_after : Z;
  events : list event
}.

(** The test [VESC_SOF_VAL_SMALL_FRAME == *iter ||
    VESC_SOF_VAL_LARGE_FRAME == *iter]. *)
Definition is_start_marker (b : Z) : bool :=
  (VESC_SOF_VAL_SMALL_FRAME =? b) || (VESC_SOF_VAL_LARGE_FRAME =? b).

Section Deframer.

(** [VescPacketFactory::createPacket(iter, buffer_.end(), &bytes_needed,
    &error)] is defined outside the sources. It is given the bytes from
    [iter] to the end of the buffer and the current [bytes_needed], and
    returns the packet pointer (null is [None]) and the new [bytes_needed]. *)
Variable createPacket : Buffer -> Z -> option VescPacket * Z.

(** One iteration of [while (iter != buffer_.end())]. *)
Definition scan_step (buffer_ : Buffer) (s : scan_state) : loop_state :=
  match buffer_ !! iter s with
  | None => Exited s
  | Some b =>
      if is_start_marker b then
        let '(packet, needed) := createPacket (drop (iter s) buffer_) (bytes_needed s) in
        match packet with
        | Some p =>
            let s' := {| iter := (iter s + length (frame_ (raw p)))%nat;
                         bytes_needed := needed;
                         trace := trace s ++ [EvHandler p] |} in
            if (iter s' <=? length buffer_)%nat then Running s' else Overrun s'
        | None =>
            if 0 <? needed then
              Exited {| iter := iter s; bytes_needed := needed; trace := trace s |}
            else
              Running {| iter := S (iter s); bytes_needed := needed; trace := trace s |}
        end
      else
        Running {| iter := S (iter s); bytes_needed := bytes_needed s; trace := trace s |}
  end.

(** At most [n] iterations. *)
Fixpoint scan_loop (n : nat) (buffer_ : Buffer) (s : scan_state) : loop_state :=
  match n with
  | O => Running s
  | S n' =>
      match scan_step buffer_ s with
      | Running s' => scan_loop n' buffer_ s'
      | Exited s' => Exited s'
      | Overrun s' => Overrun s'
      end
  end.

(** One pass of the outer loop of [packet_creation_thread]. The inner loop is
    run for at most [length buffer_ + 1] iterations, which is enough whenever
    every packet has a non-empty frame; [None] stands for an inner loop that
    did not leave within that bound or ran past the end of the buffer. *)
Definition packet_creation_pass (buffer_ : Buffer) : option pass_result :=
  let s0 := {| iter := 0; bytes_needed := VESC_MIN_FRAME_SIZE; trace := [EvLock] |} in
  match buffer_ with
  | [] =>
      Some {| buffer_after := buffer_;
              bytes_needed_after := bytes_needed s0;
              events := trace s0 ++ [EvUnlock; EvSleep] |}
  | _ :: _ =>
      match scan_loop (S (length buffer_)) buffer_ s0 with
      | Exited s =>
          Some {| buffer_after := drop (iter s) buffer_;
                  bytes_needed_after :=
                    if (iter s =? length buffer_)%nat then VESC_MIN_FRAME_SIZE
                    else bytes_needed s;
                  events := trace s ++ [EvUnlock; EvSleep] |}
      | Running _ => None
      | Overrun _ => None
      end
  end.

(** [createPacket] finds no packet at position [j] and asks for no more
    bytes, whatever [bytes_needed] held before. *)
Definition reports_invalid (buffer_ : Buffer) (j : nat) : Prop :=
  forall needed_in, exists needed,
    createPacket (drop j buffer_) needed_in = (None, needed) /\ needed <= 0.

(** [createPacket] returns the packet [p] at position [k]. *)
Definition reports_packet (buffer_ : Buffer) (k : nat) (p : VescPacket) : Prop :=
  forall needed_in, fst (createPacket (drop k buffer_) needed_in) = Some p.

End Deframer.

(** The variables of the loop in any of its states. *)
Definition state_of (ls : loop_state) : scan_state :=
  match ls with
  | Running s => s
  | Exited s => s
  | Overrun s => s
  end.

(** Events that are all calls of the packet handler. *)
Definition handlers_only (t : list event) : Prop :=
  Forall (fun e => exists p, e = EvHandler p) t.

(** Whether [buffer_mutex_] is held after the events [t]. *)
Definition lock_held (t : list event) : bool :=
  fold_left (fun held e =>
               match e with
               | EvLock => true
               | EvUnlock => false
               | EvHandler _ => held
               | EvSleep => held
               end) t false.

(** [serial_receive_callback(buffer)], called by the transport thread while
    the mutex is in state [held]: [None] when [buffer_mutex_.lock()] blocks,
    otherwise the receive buffer with the new bytes appended. *)
Definition serial_receive_callback (held : bool) (buffer_ buffer : Buffer)
  : option Buffer :=
  if held then None else Some (buffer_ ++ buffer).

(** ** Frame decoding and the packet registry *)

Inductive decode_result : Type :=
| Decoded (f : VescFrame)
| NeedMoreBytes (n : Z)
| Invalid.

(** Modelled from the spec: [VescPacketFactory::createPacket]
    (vesc_packet_factory.cpp) is not among the sources. Section 4.1 of the
    spec: given bytes that start at a start marker, the marker selects the 1-
    or 2-byte length; a declared length above 1024 is invalid; when fewer
    bytes than the whole frame are present the result is the shortfall (the
    smallest frame size when the length field itself is incomplete);
    otherwise the CRC over the payload and the terminator are checked. *)
Definition decode (bytes : Buffer) : decode_result :=
  match bytes with
  | [] => NeedMoreBytes VESC_MIN_FRAME_SIZE
  | sof :: _ =>
      let header := if sof =? VESC_SOF_VAL_SMALL_FRAME then 2%nat else 3%nat in
      if (length bytes <? header)%nat then NeedMoreBytes VESC_MIN_FRAME_SIZE
      else
        let len :=
          if sof =? VESC_SOF_VAL_SMALL_FRAME then default 0 (bytes !! 1%nat)
          else default 0 (bytes !! 1%nat) * 256 + default 0 (bytes !! 2%nat) in
        if VESC_MAX_PAYLOAD_SIZE <? len then Invalid
        else
          let total := (header + Z.to_nat len + 3)%nat in
          if (length bytes <? total)%nat
          then NeedMoreBytes (Z.of_nat total - Z.of_nat (length bytes))
          else
            let f := {| frame_ := take total bytes;
                        payload_first := header;
                        payload_second := (header + Z.to_nat len)%nat |} in
            let crc := default 0 (bytes !! (header + Z.to_nat len)%nat) * 256
                       + default 0 (bytes !! (header + Z.to_nat len + 1)%nat) in
            let eof := default 0 (bytes !! (header + Z.to_nat len + 2)%nat) in
            if (crc =? CRC_Calculate (payload f) CRC_TYPE) && (eof =? VESC_EOF_VAL)
            then Decoded f
            else Invalid
  end.

(** Modelled from the spec: section 4.2. The command id is the first payload
    byte; the two decoders registered by [REGISTER_PACKET_TYPE] in
    vesc_packet.cpp are looked up by it. An incomplete frame gives no packet
    and the number of bytes needed; an invalid frame, an unregistered id or a
    decoder that does not return give no packet and need no bytes. *)
Definition createPacket_spec (ids : COMM_PACKET_ID) (bytes : Buffer) (needed : Z)
  : option VescPacket * Z :=
  match decode bytes with
  | NeedMoreBytes n => (None, n)
  | Invalid => (None, 0)
  | Decoded f =>
      match payload f with
      | [] => (None, 0)
      | id :: _ =>
          if id =? COMM_FW_VERSION ids then
            match outcome (VescPacketFWVersion f) with
            | Ok fw => (Some (fw_packet fw), 0)
            | Abort => (None, 0)
            | Undefined => (None, 0)
            end
          else if id =? COMM_GET_VALUES ids then (Some (VescPacketValues f), 0)
          else (None, 0)
      end
  end.

(** ** Sample frames *)

(** A firmware-version frame: version 5.2, name [HW], identifier 1 to 12,
    paired flag 1, then the bytes 0xAA and 0xBB. *)
Definition fw_frame : VescFrame :=
  {| frame_ := [2; 21; 0; 5; 2; 72; 87; 0; 1; 2; 3; 4; 5; 6; 7; 8; 9; 10; 11; 12;
                1; 0xAA; 0xBB; 67; 130; 3];
     payload_first := 2; payload_second := 23 |}.

(** The same with an empty name. *)
Definition fw_frame_empty_name : VescFrame :=
  {| frame_ := [2; 19; 0; 5; 2; 0; 1; 2; 3; 4; 5; 6; 7; 8; 9; 10; 11; 12;
                1; 0xAA; 0xBB; 51; 235; 3];
     payload_first := 2; payload_second := 21 |}.

(** A firmware-version frame whose payload ends inside the name. *)
Definition fw_frame_unterminated : VescFrame :=
  {| frame_ := [2; 4; 0; 5; 2; 72; 68; 94; 3];
     payload_first := 2; payload_second := 6 |}.

(** A request-values frame, the same with its CRC bytes zeroed, and a
    buffer in which two start markers precede the frame. *)
Definition valid_frame : Buffer := [2; 1; 4; 64; 132; 3].
Definition corrupt_frame : Buffer := [2; 1; 4; 0; 0; 3].
Definition noisy_buffer : Buffer := [2; 2] ++ valid_frame.

Definition valid_packet : VescPacket :=
  {| name_ := "Values";
     raw := {| frame_ := valid_frame; payload_first := 2; payload_second := 3 |} |}.

(** Values frames with a payload of 73 bytes and of 70 bytes. *)
Definition values_frame : VescFrame :=
  {| frame_ := [2; 73; 4] ++ replicate 72 1 ++ [4; 20; 3];
     payload_first := 2; payload_second := 75 |}.

Definition values_frame_short : VescFrame :=
  {| frame_ := [2; 70; 4] ++ replicate 69 1 ++ [45; 123; 3];
     payload_first := 2; payload_second := 72 |}.

(** ** Vocabulary of the further properties *)

(** The packets [ps] lie back to back in [buffer_] from position [k] to its
    end: each starts at a start marker, is what [createPacket] returns
    there, and has a non-empty frame. *)
Fixpoint frames_at (createPacket : Buffer -> Z -> option VescPacket * Z)
    (buffer_ : Buffer) (k : nat) (ps : list VescPacket) : Prop :=
  match ps with
  | [] => k = length buffer_
  | p :: ps' =>
      (exists b, buffer_ !! k = Some b /\ is_start_marker b = true) /\
      reports_packet createPacket buffer_ k p /\
      (0 < length (frame_ (raw p)))%nat /\
      frames_at createPacket buffer_ (k + length (frame_ (raw p))) ps'
  end.

Definition is_byte (b : Z) : Prop := 0 <= b < 256.

(** The header bytes the frame constructor writes for a payload size. *)
Definition frame_header (payload_size : Z) : list Z :=
  if payload_size <? 256 then [VESC_SOF_VAL_SMALL_FRAME; payload_size]
  else [VESC_SOF_VAL_LARGE_FRAME; payload_size / 256; payload_size mod 256].

(** The name, the command id and the integer a send method encodes. *)
Definition packet_name (r : request) : string :=
  match r with
  | requestFWVersion => "RequestFWVersion"
  | requestState => "RequestValues"
  | setDutyCycle _ => "SetDuty"
  | setCurrent _ => "SetCurrent"
  | setBrake _ => "SetCurrentBrake"
  | setSpeed _ => "SetRPM"
  | setPosition _ => "SetPos"
  | setServo _ => "SetServoPos"
  end.

Definition command_id (ids : COMM_PACKET_ID) (r : request) : Z :=
  match r with
  | requestFWVersion => COMM_FW_VERSION ids
  | requestState => COMM_GET_VALUES ids
  | setDutyCycle _ => COMM_SET_DUTY ids
  | setCurrent _ => COMM_SET_CURRENT ids
  | setBrake _ => COMM_SET_CURRENT_BRAKE ids
  | setSpeed _ => COMM_SET_RPM ids
  | setPosition _ => COMM_SET_POS ids
  | setServo _ => COMM_SET_SERVO_POS ids
  end.

(** The field bytes of a request: none for the two queries, the converted
    integer in big-endian order for the set commands. *)
Definition field_bytes (r : request) : result (list Z) :=
  match r with
  | requestFWVersion => Ok []
  | requestState => Ok []
  | setDutyCycle x =>
      do v <- double_to_int32 (x * 100000.0)%float; Ok (be32_bytes (v mod 2 ^ 32))
  | setCurrent x =>
      do v <- double_to_int32 (x * 1000.0)%float; Ok (be32_bytes (v mod 2 ^ 32))
  | setBrake x =>
      do v <- double_to_int32 (x * 1000.0)%float; Ok (be32_bytes (v mod 2 ^ 32))
  | setSpeed x =>
      do v <- double_to_int32 x; Ok (be32_bytes (v mod 2 ^ 32))
  | setPosition x =>
      do v <- double_to_int32 (x * 1000000.0)%float; Ok (be32_bytes (v mod 2 ^ 32))
  | setServo x =>
      do v <- double_to_int16 (x * 1000.0)%float; Ok (be16_bytes (v mod 2 ^ 16))
  end.

(** A traced computation that returns a value. *)
Definition returns {A : Type} (t : Traced A) : Prop :=
  exists a, outcome t = Ok a.

(** The offsets the 23 accessors of a Values packet dereference, in the
    order of their definitions. *)
Definition values_reads (p : VescPacket) : list nat :=
  reads (temp_fet p) ++ reads (temp_motor p) ++ reads (avg_motor_current p) ++
  reads (avg_input_current p) ++ reads (avg_id p) ++ reads (avg_iq p) ++
  reads (duty_cycle_now p) ++ reads (rpm p) ++ reads (v_in p) ++
  reads (amp_hours p) ++ reads (amp_hours_charged p) ++ reads (watt_hours p) ++
  reads (watt_hours_charged p) ++ reads (tachometer p) ++
  reads (tachometer_abs p) ++ reads (fault_code p) ++ reads (pid_pos_now p) ++
  reads (controller_id p) ++ reads (temp_mos1 p) ++ reads (temp_mos2 p) ++
  reads (temp_mos3 p) ++ reads (avg_vd p) ++ reads (avg_vq p).

(** * Properties *)

(** ** Test vectors *)

(** Sanity: the XMODEM check value. *)
Example CRC_check_value :
  CRC_Calculate [0x31; 0x32; 0x33; 0x34; 0x35; 0x36; 0x37; 0x38; 0x39] CRC_TYPE = 0x31C3.
Proof. vm_compute. reflexivity. Qed.

Example SetCurrent_example :
  VescPacketSetCurrent vesc_ids 12.5 =
  Ok {| name_ := "SetCurrent";
        raw := {| frame_ := [2; 5; 6; 0; 0; 0x30; 0xD4; 0x43; 0xE9; 3];
                  payload_first := 2; payload_second := 7 |} |}.
Proof. vm_compute. reflexivity. Qed.

Example SetServoPos_example :
  VescPacketSetServoPos vesc_ids (-0.5) =
  Ok {| name_ := "SetServoPos";
        raw := {| frame_ := [2; 3; 12; 0xFE; 0x0C; 0x84; 0x23; 3];
                  payload_first := 2; payload_second := 5 |} |}.
Proof. vm_compute. reflexivity. Qed.

(** ** Bytes and words *)

Lemma byte_of_shift (u k : Z) :
  0 <= k -> uint8 (Z.land (Z.shiftr u k) 0xFF) = u / 2 ^ k mod 256.
Proof.
  intros Hk. unfold uint8.
  change 0xFF with (Z.ones 8).
  rewrite Z.land_ones by lia.
  rewrite Z.shiftr_div_pow2 by lia.
  change (2 ^ 8) with 256.
  apply Z.mod_mod. lia.
Qed.

Lemma byte_of_low (u : Z) : uint8 (Z.land u 0xFF) = u mod 256.
Proof.
  unfold uint8. change 0xFF with (Z.ones 8).
  rewrite Z.land_ones by lia. change (2 ^ 8) with 256.
  apply Z.mod_mod. lia.
Qed.

(** The bytes of [be32_bytes] are bytes and put together give the word back. *)
Lemma be32_bytes_value (u : Z) :
  0 <= u < 2 ^ 32 ->
  match be32_bytes u with
  | [b3; b2; b1; b0] =>
      Forall (fun b => 0 <= b < 256) [b3; b2; b1; b0] /\
      b3 * 2 ^ 24 + b2 * 2 ^ 16 + b1 * 2 ^ 8 + b0 = u
  | _ => False
  end.
Proof.
  intros Hu. unfold be32_bytes. split.
  - repeat constructor; apply Z.mod_pos_bound; lia.
  - change (2 ^ 24) with 16777216. change (2 ^ 16) with 65536.
    change (2 ^ 8) with 256. change (2 ^ 32) with 4294967296 in Hu.
    assert (u / 16777216 < 256) by (apply Z.div_lt_upper_bound; lia).
    assert (0 <= u / 16777216) by (apply Z.div_pos; lia).
    rewrite (Z.mod_small (u / 16777216)) by lia.
    pose proof (Z.div_mod u 256 ltac:(lia)).
    pose proof (Z.div_mod (u / 256) 256 ltac:(lia)).
    pose proof (Z.div_mod (u / 256 / 256) 256 ltac:(lia)).
    rewrite !Z.div_div in * by lia.
    change (256 * 256) with 65536 in *. change (65536 * 256) with 16777216 in *.
    lia.
Qed.

(** ** CRC range *)

Lemma crc_shift_range (poly crc : Z) : 0 <= crc_shift poly crc < 65536.
Proof.
  unfold crc_shift. change 0xFFFF with (Z.ones 16).
  destruct (Z.testbit crc 15); rewrite Z.land_ones by lia;
    change (2 ^ 16) with 65536; apply Z.mod_pos_bound; lia.
Qed.

Lemma crc_update_range (p : CRC_Parameters) (crc b : Z) :
  0 <= crc_update p crc b < 65536.
Proof. unfold crc_update. cbn [Nat.iter nat_rect]. apply crc_shift_range. Qed.

Lemma crc_fold_range (p : CRC_Parameters) (data : list Z) (acc : Z) :
  0 <= acc < 65536 -> 0 <= fold_left (crc_update p) data acc < 65536.
Proof.
  revert acc. induction data as [|b data IH]; intros acc Hacc; cbn [fold_left].
  - exact Hacc.
  - apply IH, crc_update_range.
Qed.

Lemma CRC_Calculate_range (data : list Z) :
  0 <= CRC_Calculate data CRC_TYPE < 65536.
Proof.
  unfold CRC_Calculate. cbn [reflectOutput finalXOR initialXOR CRC_TYPE].
  rewrite Z.lxor_0_r. apply crc_fold_range. lia.
Qed.

(** ** Frame construction *)

Lemma shiftr_8_div (n : Z) : Z.shiftr n 8 = n / 256.
Proof. rewrite Z.shiftr_div_pow2 by lia. reflexivity. Qed.

Lemma land_255_mod (n : Z) : Z.land n 0xFF = n mod 256.
Proof. change 0xFF with (Z.ones 8). rewrite Z.land_ones by lia. reflexivity. Qed.

(** C6. For a payload size of 0 to 255 the frame constructor writes start
    marker 2 and the size as one length byte; for 256 to 1024 it writes start
    marker 3 and the size as two length bytes, high byte first. In both cases
    the last byte of the frame is the terminator 3 and the frame has
    header (2 or 3) + payload + 2 CRC bytes + 1 terminator byte. *)
Theorem VescFrame_int_layout (payload_size : Z) :
  0 <= payload_size <= 1024 ->
  exists f : VescFrame,
    VescFrame_int payload_size = Ok f /\
    last (frame_ f) = Some VESC_EOF_VAL /\
    payload_second f = (payload_first f + Z.to_nat payload_size)%nat /\
    (payload_size <= 255 ->
       frame_ f !! 0%nat = Some VESC_SOF_VAL_SMALL_FRAME /\
       frame_ f !! 1%nat = Some payload_size /\
       payload_first f = 2%nat /\
       Z.of_nat (length (frame_ f)) = 2 + payload_size + 2 + 1) /\
    (256 <= payload_size ->
       frame_ f !! 0%nat = Some VESC_SOF_VAL_LARGE_FRAME /\
       frame_ f !! 1%nat = Some (payload_size / 256) /\
       frame_ f !! 2%nat = Some (payload_size mod 256) /\
       payload_first f = 3%nat /\
       Z.of_nat (length (frame_ f)) = 3 + payload_size + 2 + 1).
Proof.
  intros Hsize. unfold VescFrame_int.
  assert (Hchk : (0 <=? payload_size) && (payload_size <=? 1024) = true)
    by (apply andb_true_iff; split; apply Z.leb_le; lia).
  rewrite Hchk. cbn [assert rbind].
  unfold VESC_MIN_FRAME_SIZE, VESC_EOF_VAL, VESC_SOF_VAL_SMALL_FRAME,
    VESC_SOF_VAL_LARGE_FRAME.
  destruct (payload_size <? 256) eqn:Hsmall.
  - apply Z.ltb_lt in Hsmall.
    eexists. split; [reflexivity|]. cbn [frame_ payload_first payload_second].
    set (n := Z.to_nat (5 + payload_size)).
    assert (Hn : (5 <= n)%nat) by lia.
    rewrite last_lookup, !length_insert, length_replicate.
    split; [|split; [reflexivity|split]].
    + rewrite Nat.sub_1_r. apply list_lookup_insert_eq.
      rewrite !length_insert, length_replicate. lia.
    + intros _. split; [|split; [|split; [reflexivity|lia]]].
      * rewrite list_lookup_insert_ne by lia.
        rewrite list_lookup_insert_ne by lia.
        apply list_lookup_insert_eq. rewrite length_replicate. lia.
      * rewrite list_lookup_insert_ne by lia.
        rewrite list_lookup_insert_eq
          by (rewrite length_insert, length_replicate; lia).
        unfold uint8. rewrite Z.mod_small by lia. reflexivity.
    + intros Hbig. lia.
  - apply Z.ltb_ge in Hsmall.
    eexists. split; [reflexivity|]. cbn [frame_ payload_first payload_second].
    set (n := Z.to_nat (5 + 1 + payload_size)).
    assert (Hn : (262 <= n)%nat) by lia.
    rewrite last_lookup, !length_insert, length_replicate.
    split; [|split; [reflexivity|split]].
    + rewrite Nat.sub_1_r. apply list_lookup_insert_eq.
      rewrite !length_insert, length_replicate. lia.
    + intros Hle. lia.
    + intros _. split; [|split; [|split; [|split; [reflexivity|lia]]]].
      * rewrite !list_lookup_insert_ne by lia.
        apply list_lookup_insert_eq. rewrite length_replicate. lia.
      * rewrite !list_lookup_insert_ne by lia.
        rewrite list_lookup_insert_eq
          by (rewrite length_insert, length_replicate; lia).
        rewrite shiftr_8_div. unfold uint8.
        assert (0 <= payload_size / 256 < 256)
          by (split; [apply Z.div_pos; lia | apply Z.div_lt_upper_bound; lia]).
        rewrite Z.mod_small by lia. reflexivity.
      * rewrite list_lookup_insert_ne by lia.
        rewrite list_lookup_insert_eq
          by (rewrite !length_insert, length_replicate; lia).
        rewrite land_255_mod. unfold uint8. rewrite Z.mod_mod by lia. reflexivity.
Qed.

Lemma VescFrame_int_layout_witness :
  exists f : VescFrame,
    VescFrame_int 300 = Ok f /\
    last (frame_ f) = Some VESC_EOF_VAL /\
    payload_second f = (payload_first f + Z.to_nat 300)%nat /\
    (300 <= 255 ->
       frame_ f !! 0%nat = Some VESC_SOF_VAL_SMALL_FRAME /\
       frame_ f !! 1%nat = Some 300 /\
       payload_first f = 2%nat /\
       Z.of_nat (length (frame_ f)) = 2 + 300 + 2 + 1) /\
    (256 <= 300 ->
       frame_ f !! 0%nat = Some VESC_SOF_VAL_LARGE_FRAME /\
       frame_ f !! 1%nat = Some (300 / 256) /\
       frame_ f !! 2%nat = Some (300 mod 256) /\
       payload_first f = 3%nat /\
       Z.of_nat (length (frame_ f)) = 3 + 300 + 2 + 1).
Proof. apply (VescFrame_int_layout 300). lia. Defined.

(** ** Shape of the encoded packets *)

Lemma crc_high_byte (crc : Z) :
  0 <= crc < 65536 -> uint8 (Z.shiftr (uint16 crc) 8) = crc / 256.
Proof.
  intros H. unfold uint16, uint8. rewrite (Z.mod_small crc) by lia.
  rewrite shiftr_8_div. apply Z.mod_small.
  split; [apply Z.div_pos; lia | apply Z.div_lt_upper_bound; lia].
Qed.

Lemma crc_uint16 (crc : Z) : 0 <= crc < 65536 -> uint16 crc = crc.
Proof. intros H. unfold uint16. apply Z.mod_small. lia. Qed.

Lemma crc_low_byte (crc : Z) :
  0 <= crc < 65536 -> uint8 (Z.land (uint16 crc) 0xFF) = crc mod 256.
Proof.
  intros H. unfold uint16. rewrite (Z.mod_small crc) by lia. apply byte_of_low.
Qed.

Lemma VescFrame_int_1 :
  VescFrame_int 1 =
  Ok {| frame_ := [2; 1; 0; 0; 0; 3]; payload_first := 2; payload_second := 3 |}.
Proof. vm_compute. reflexivity. Qed.

Lemma VescPacket_id_1 (name : string) (id : Z) :
  0 <= id < 256 ->
  VescPacket_id name 1 id =
  Ok {| name_ := name;
        raw := {| frame_ := [2; 1; id; 0; 0; 3];
                  payload_first := 2; payload_second := 3 |} |}.
Proof.
  intros Hid. unfold VescPacket_id. rewrite VescFrame_int_1.
  assert (Hchk : (0 <=? id) && (id <? 256) = true)
    by (apply andb_true_iff; split; [apply Z.leb_le | apply Z.ltb_lt]; lia).
  cbn [rbind]. rewrite Hchk.
  unfold poke_payload, uint8. rewrite Z.mod_small by lia. reflexivity.
Qed.

Lemma VescFrame_int_3 :
  VescFrame_int 3 =
  Ok {| frame_ := [2; 3; 0; 0; 0; 0; 0; 3]; payload_first := 2; payload_second := 5 |}.
Proof. vm_compute. reflexivity. Qed.

Lemma VescPacket_id_3 (name : string) (id : Z) :
  0 <= id < 256 ->
  VescPacket_id name 3 id =
  Ok {| name_ := name;
        raw := {| frame_ := [2; 3; id; 0; 0; 0; 0; 3];
                  payload_first := 2; payload_second := 5 |} |}.
Proof.
  intros Hid. unfold VescPacket_id. rewrite VescFrame_int_3.
  assert (Hchk : (0 <=? id) && (id <? 256) = true)
    by (apply andb_true_iff; split; [apply Z.leb_le | apply Z.ltb_lt]; lia).
  cbn [rbind]. rewrite Hchk.
  unfold poke_payload, uint8. rewrite Z.mod_small by lia. reflexivity.
Qed.

Lemma VescFrame_int_5 :
  VescFrame_int 5 =
  Ok {| frame_ := [2; 5; 0; 0; 0; 0; 0; 0; 0; 3]; payload_first := 2; payload_second := 7 |}.
Proof. vm_compute. reflexivity. Qed.

Lemma VescPacket_id_5 (name : string) (id : Z) :
  0 <= id < 256 ->
  VescPacket_id name 5 id =
  Ok {| name_ := name;
        raw := {| frame_ := [2; 5; id; 0; 0; 0; 0; 0; 0; 3];
                  payload_first := 2; payload_second := 7 |} |}.
Proof.
  intros Hid. unfold VescPacket_id. rewrite VescFrame_int_5.
  assert (Hchk : (0 <=? id) && (id <? 256) = true)
    by (apply andb_true_iff; split; [apply Z.leb_le | apply Z.ltb_lt]; lia).
  cbn [rbind]. rewrite Hchk.
  unfold poke_payload, uint8. rewrite Z.mod_small by lia. reflexivity.
Qed.

(** A packet constructor aborts on an id that is not a byte. *)
Lemma VescPacket_id_Ok_range (name : string) (size id : Z) (p : VescPacket) :
  VescPacket_id name size id = Ok p -> 0 <= id < 256.
Proof.
  unfold VescPacket_id. destruct (VescFrame_int size) as [f| |]; cbn [rbind]; try discriminate.
  destruct ((0 <=? id) && (id <? 256)) eqn:Hchk; cbn [assert rbind]; try discriminate.
  intros _. apply andb_true_iff in Hchk. destruct Hchk as [H1 H2].
  apply Z.leb_le in H1. apply Z.ltb_lt in H2. lia.
Qed.

Lemma store_crc_1 (name : string) (id : Z) :
  store_crc {| name_ := name;
               raw := {| frame_ := [2; 1; id; 0; 0; 3];
                         payload_first := 2; payload_second := 3 |} |}
  = small_packet name [id].
Proof.
  unfold store_crc, small_packet, small_frame, poke_end, payload.
  cbn [raw frame_ payload_first payload_second name_ length Nat.sub Nat.add
       take drop app insert list_insert].
  pose proof (CRC_Calculate_range [id]) as Hcrc.
  set (crc := CRC_Calculate [id] CRC_TYPE) in *.
  rewrite crc_high_byte, crc_low_byte by exact Hcrc.
  reflexivity.
Qed.

Lemma store_int16_crc (name : string) (id v : Z) :
  store_crc (store_int16
    {| name_ := name;
       raw := {| frame_ := [2; 3; id; 0; 0; 0; 0; 3];
                 payload_first := 2; payload_second := 5 |} |} v)
  = small_packet name (id :: be16_bytes (v mod 2 ^ 16)).
Proof.
  unfold store_crc, store_int16, small_packet, small_frame, poke_end,
    poke_payload, payload.
  cbn [raw frame_ payload_first payload_second name_ length Nat.sub Nat.add
       take drop app insert list_insert].
  rewrite !byte_of_shift by lia. rewrite !byte_of_low.
  unfold be16_bytes. fold (uint16 v). change (v mod 2 ^ 16) with (uint16 v).
  set (pl := [id; uint16 v / 2 ^ 8 mod 256; uint16 v mod 256]).
  pose proof (CRC_Calculate_range pl) as Hcrc.
  set (crc := CRC_Calculate pl CRC_TYPE) in *.
  rewrite crc_high_byte, (crc_uint16 crc) by exact Hcrc.
  reflexivity.
Qed.

Lemma store_int32_crc (name : string) (id v : Z) :
  store_crc (store_int32
    {| name_ := name;
       raw := {| frame_ := [2; 5; id; 0; 0; 0; 0; 0; 0; 3];
                 payload_first := 2; payload_second := 7 |} |} v)
  = small_packet name (id :: be32_bytes (v mod 2 ^ 32)).
Proof.
  unfold store_crc, store_int32, small_packet, small_frame, poke_end,
    poke_payload, payload.
  cbn [raw frame_ payload_first payload_second name_ length Nat.sub Nat.add
       take drop app insert list_insert].
  rewrite !byte_of_shift by lia. rewrite !byte_of_low.
  unfold be32_bytes. change (v mod 2 ^ 32) with (uint32 v).
  set (pl := [id; uint32 v / 2 ^ 24 mod 256; uint32 v / 2 ^ 16 mod 256;
              uint32 v / 2 ^ 8 mod 256; uint32 v mod 256]).
  pose proof (CRC_Calculate_range pl) as Hcrc.
  set (crc := CRC_Calculate pl CRC_TYPE) in *.
  rewrite crc_high_byte, (crc_uint16 crc) by exact Hcrc.
  reflexivity.
Qed.

Lemma small_packet_payload (name : string) (pl : list Z) :
  payload (raw (small_packet name pl)) = pl.
Proof.
  unfold payload, small_packet, small_frame.
  cbn [raw frame_ payload_first payload_second app drop].
  replace (2 + length pl - 2)%nat with (length pl) by lia.
  apply take_app_length.
Qed.

Lemma small_packet_length (name : string) (pl : list Z) :
  length (frame_ (raw (small_packet name pl))) = (length pl + 5)%nat.
Proof.
  unfold small_packet, small_frame. cbn [raw frame_ app length].
  rewrite length_app. cbn [length]. lia.
Qed.


(** What the five-byte encoders have in common: a packet of payload size 5
    whose fields are the int32 conversion of [x]. *)
Lemma int32_encoder_Ok (name : string) (id : Z) (x : float) (q : VescPacket) :
  (do p <- VescPacket_id name 5 id;
   do v <- double_to_int32 x;
   Ok (store_crc (store_int32 p v))) = Ok q <->
  0 <= id < 256 /\
  exists v, double_to_int32 x = Ok v /\
            q = small_packet name (id :: be32_bytes (v mod 2 ^ 32)).
Proof.
  split.
  - intros H.
    destruct (VescPacket_id name 5 id) as [p| |] eqn:Hp; cbn [rbind] in H;
      try discriminate.
    pose proof (VescPacket_id_Ok_range _ _ _ _ Hp) as Hid.
    rewrite VescPacket_id_5 in Hp by exact Hid. injection Hp as <-.
    destruct (double_to_int32 x) as [v| |]; cbn [rbind] in H; try discriminate.
    injection H as <-. split; [exact Hid|]. exists v. split; [reflexivity|].
    apply store_int32_crc.
  - intros [Hid [v [Hv ->]]]. rewrite VescPacket_id_5 by exact Hid.
    cbn [rbind]. rewrite Hv. cbn [rbind]. f_equal. apply store_int32_crc.
Qed.

Lemma int16_encoder_Ok (name : string) (id : Z) (x : float) (q : VescPacket) :
  (do p <- VescPacket_id name 3 id;
   do v <- double_to_int16 x;
   Ok (store_crc (store_int16 p v))) = Ok q <->
  0 <= id < 256 /\
  exists v, double_to_int16 x = Ok v /\
            q = small_packet name (id :: be16_bytes (v mod 2 ^ 16)).
Proof.
  split.
  - intros H.
    destruct (VescPacket_id name 3 id) as [p| |] eqn:Hp; cbn [rbind] in H;
      try discriminate.
    pose proof (VescPacket_id_Ok_range _ _ _ _ Hp) as Hid.
    rewrite VescPacket_id_3 in Hp by exact Hid. injection Hp as <-.
    destruct (double_to_int16 x) as [v| |]; cbn [rbind] in H; try discriminate.
    injection H as <-. split; [exact Hid|]. exists v. split; [reflexivity|].
    apply store_int16_crc.
  - intros [Hid [v [Hv ->]]]. rewrite VescPacket_id_3 by exact Hid.
    cbn [rbind]. rewrite Hv. cbn [rbind]. f_equal. apply store_int16_crc.
Qed.

Lemma request_encoder_Ok (name : string) (id : Z) (q : VescPacket) :
  (do p <- VescPacket_id name 1 id; Ok (store_crc p)) = Ok q <->
  0 <= id < 256 /\ q = small_packet name [id].
Proof.
  split.
  - intros H.
    destruct (VescPacket_id name 1 id) as [p| |] eqn:Hp; cbn [rbind] in H;
      try discriminate.
    pose proof (VescPacket_id_Ok_range _ _ _ _ Hp) as Hid.
    rewrite VescPacket_id_1 in Hp by exact Hid. injection Hp as <-.
    injection H as <-. split; [exact Hid|]. apply store_crc_1.
  - intros [Hid ->]. rewrite VescPacket_id_1 by exact Hid.
    cbn [rbind]. f_equal. apply store_crc_1.
Qed.


(** ** CRC placement *)



(** ** Conversion of a double to an integer *)

(** [double_trunc] drops the fractional part: its result has the sign of the
    double and its magnitude is the largest integer not above the magnitude
    of the double. *)
Lemma double_trunc_toward_zero (x : float) (s : bool) (m : positive) (e v : Z) :
  Prim2SF x = S754_finite s m e ->
  double_trunc x = Some v ->
  (if s then v <= 0 else 0 <= v) /\
  (0 <= e -> Z.abs v = Zpos m * 2 ^ e) /\
  (e < 0 -> Z.abs v * 2 ^ (- e) <= Zpos m < (Z.abs v + 1) * 2 ^ (- e)).
Proof.
  intros Hx. unfold double_trunc. rewrite Hx. intros Hv. injection Hv as <-.
  destruct e as [|pe|pe].
  - rewrite Z.pow_0_r, Z.mul_1_r. destruct s; repeat split; lia.
  - assert (0 < 2 ^ Zpos pe) by (apply Z.pow_pos_nonneg; lia).
    destruct s; repeat split; try lia; nia.
  - assert (Hp : 0 < 2 ^ Zpos pe) by (apply Z.pow_pos_nonneg; lia).
    pose proof (Z.div_pos (Zpos m) (2 ^ Zpos pe) ltac:(lia) Hp) as Hq.
    pose proof (Z.mul_div_le (Zpos m) (2 ^ Zpos pe) Hp) as Hle.
    pose proof (Z.mul_succ_div_gt (Zpos m) (2 ^ Zpos pe) Hp) as Hgt.
    change (- Z.neg pe) with (Zpos pe).
    destruct s.
    + split; [lia|]. split; [lia|]. intros _.
      rewrite Z.abs_opp, Z.abs_eq by exact Hq. lia.
    + split; [lia|]. split; [lia|]. intros _.
      rewrite Z.abs_eq by exact Hq. lia.
Qed.

Lemma double_to_int32_range (x : float) (v : Z) :
  double_to_int32 x = Ok v ->
  double_trunc x = Some v /\ - 2 ^ 31 <= v < 2 ^ 31.
Proof.
  unfold double_to_int32. destruct (double_trunc x) as [w|]; [|discriminate].
  destruct ((-2147483648 <=? w) && (w <=? 2147483647)) eqn:Hr; [|discriminate].
  intros H. injection H as <-. apply andb_true_iff in Hr. destruct Hr as [H1 H2].
  apply Z.leb_le in H1. apply Z.leb_le in H2. split; [reflexivity | lia].
Qed.

Lemma double_to_int16_range (x : float) (v : Z) :
  double_to_int16 x = Ok v ->
  double_trunc x = Some v /\ - 2 ^ 15 <= v < 2 ^ 15.
Proof.
  unfold double_to_int16. destruct (double_trunc x) as [w|]; [|discriminate].
  destruct ((-32768 <=? w) && (w <=? 32767)) eqn:Hr; [|discriminate].
  intros H. injection H as <-. apply andb_true_iff in Hr. destruct Hr as [H1 H2].
  apply Z.leb_le in H1. apply Z.leb_le in H2. split; [reflexivity | lia].
Qed.

(** Two's complement of a negative value. *)
Lemma twos_complement_negative (w v : Z) :
  - 2 ^ w <= v < 0 -> v mod 2 ^ (w + 1) = 2 ^ (w + 1) + v.
Proof.
  intros Hv. destruct (Z.le_gt_cases 0 w) as [Hw|Hw].
  - assert (H2 : 2 ^ (w + 1) = 2 * 2 ^ w) by (rewrite Z.pow_add_r by lia; change (2 ^ 1) with 2; lia).
    assert (0 < 2 ^ w) by (apply Z.pow_pos_nonneg; lia).
    symmetry. apply Z.mod_unique with (q := -1); lia.
  - rewrite (Z.pow_neg_r 2 w) in Hv by lia. lia.
Qed.

(** ** Set current = 12.5 *)

(** C5, as the code has it. Encoding set current with value 12.5 gives the
    payload [command id, 0x00, 0x00, 0x30, 0xD4], which is 12500 as a
    big-endian 32-bit integer, followed in the frame by the CRC of those
    five bytes and the terminator. *)
Theorem SetCurrent_12_5_frame (ids : COMM_PACKET_ID) :
  0 <= COMM_SET_CURRENT ids < 256 ->
  exists p : VescPacket,
    VescPacketSetCurrent ids 12.5 = Ok p /\
    payload (raw p) = [COMM_SET_CURRENT ids; 0x00; 0x00; 0x30; 0xD4] /\
    0 * 2 ^ 24 + 0 * 2 ^ 16 + 0x30 * 2 ^ 8 + 0xD4 = 12500 /\
    frame_ (raw p) =
      [2; 5; COMM_SET_CURRENT ids; 0x00; 0x00; 0x30; 0xD4;
       CRC_Calculate [COMM_SET_CURRENT ids; 0x00; 0x00; 0x30; 0xD4] CRC_TYPE / 256;
       CRC_Calculate [COMM_SET_CURRENT ids; 0x00; 0x00; 0x30; 0xD4] CRC_TYPE mod 256;
       3].
Proof.
  intros Hid.
  exists (small_packet "SetCurrent" (COMM_SET_CURRENT ids :: be32_bytes (12500 mod 2 ^ 32))).
  split.
  - unfold VescPacketSetCurrent. apply int32_encoder_Ok. split; [exact Hid|].
    exists 12500. split; [vm_compute; reflexivity | reflexivity].
  - rewrite small_packet_payload. repeat split.
Qed.

Lemma SetCurrent_12_5_frame_witness :
  exists p : VescPacket,
    VescPacketSetCurrent vesc_ids 12.5 = Ok p /\
    payload (raw p) = [6; 0x00; 0x00; 0x30; 0xD4] /\
    0 * 2 ^ 24 + 0 * 2 ^ 16 + 0x30 * 2 ^ 8 + 0xD4 = 12500 /\
    frame_ (raw p) =
      [2; 5; 6; 0x00; 0x00; 0x30; 0xD4;
       CRC_Calculate [6; 0x00; 0x00; 0x30; 0xD4] CRC_TYPE / 256;
       CRC_Calculate [6; 0x00; 0x00; 0x30; 0xD4] CRC_TYPE mod 256;
       3].
Proof. apply (SetCurrent_12_5_frame vesc_ids). cbn. lia. Defined.

(** The bytes 0x30, 0xD8 are those of 12504; for 12500 the encoder writes
    0x30, 0xD4. *)
Lemma SetCurrent_12_5_counterexample :
  exists p : VescPacket,
    VescPacketSetCurrent vesc_ids 12.5 = Ok p /\
    payload (raw p) = [6; 0x00; 0x00; 0x30; 0xD4] /\
    payload (raw p) <> [COMM_SET_CURRENT vesc_ids; 0x00; 0x00; 0x30; 0xD8] /\
    be32_bytes 12500 <> [0x00; 0x00; 0x30; 0xD8].
Proof.
  eexists. split; [vm_compute; reflexivity|].
  split; [vm_compute; reflexivity|].
  split; vm_compute; discriminate.
Qed.

(** ** Set duty cycle *)

(** C7, as the code has it. The set-duty-cycle encoder writes, as a
    big-endian int32 at payload bytes 1 to 4, the double product
    [duty * 100000.0] with its fractional part discarded (truncation toward
    zero), whenever the truncated value fits an int32. *)
Theorem SetDuty_truncates (ids : COMM_PACKET_ID) (duty : float) (v : Z) :
  0 <= COMM_SET_DUTY ids < 256 ->
  double_trunc (duty * 100000.0)%float = Some v ->
  - 2 ^ 31 <= v < 2 ^ 31 ->
  exists p : VescPacket,
    VescPacketSetDuty ids duty = Ok p /\
    payload (raw p) !! 0%nat = Some (COMM_SET_DUTY ids) /\
    take 4 (drop 1 (payload (raw p))) = be32_bytes (v mod 2 ^ 32) /\
    length (payload (raw p)) = 5%nat.
Proof.
  intros Hid Hv Hr.
  exists (small_packet "SetDuty" (COMM_SET_DUTY ids :: be32_bytes (v mod 2 ^ 32))).
  split.
  - unfold VescPacketSetDuty. apply int32_encoder_Ok. split; [exact Hid|].
    exists v. split; [|reflexivity].
    unfold double_to_int32. rewrite Hv.
    replace ((-2147483648 <=? v) && (v <=? 2147483647)) with true; [reflexivity|].
    symmetry. apply andb_true_iff. split; apply Z.leb_le; lia.
  - rewrite small_packet_payload. repeat split.
Qed.

Lemma SetDuty_truncates_witness :
  exists p : VescPacket,
    VescPacketSetDuty vesc_ids 0.125 = Ok p /\
    payload (raw p) !! 0%nat = Some 5 /\
    take 4 (drop 1 (payload (raw p))) = be32_bytes (12500 mod 2 ^ 32) /\
    length (payload (raw p)) = 5%nat.
Proof.
  apply (SetDuty_truncates vesc_ids 0.125 12500).
  - cbn. lia.
  - vm_compute. reflexivity.
  - lia.
Defined.

(** For the duty cycle 2^-17 the product with 100000 is 0.762939453125:
    the nearest integer is 1, the encoder writes 0. *)
Lemma SetDuty_round_counterexample :
  double_round (0x1p-17 * 100000.0)%float = Some 1 /\
  double_trunc (0x1p-17 * 100000.0)%float = Some 0 /\
  exists p : VescPacket,
    VescPacketSetDuty vesc_ids 0x1p-17 = Ok p /\
    take 4 (drop 1 (payload (raw p))) = [0; 0; 0; 0] /\
    take 4 (drop 1 (payload (raw p))) <> be32_bytes 1.
Proof.
  split; [vm_compute; reflexivity|].
  split; [vm_compute; reflexivity|].
  eexists. split; [vm_compute; reflexivity|].
  split; [vm_compute; reflexivity | vm_compute; discriminate].
Qed.

(** ** Negative set-points *)

(** C10. For each of the six set-command encoders, when the int32 (int16 for
    the servo position) obtained by truncating the scaled input is a
    negative [v], the field bytes are the big-endian bytes of [v mod 2^32]
    ([v mod 2^16] for the servo position), which is the two's complement
    [2^32 + v] ([2^16 + v]). *)
Theorem negative_setpoint_bytes (ids : COMM_PACKET_ID) (x : float) (v : Z) :
  ids_in_range ids = true ->
  v < 0 ->
  (double_to_int32 (x * 100000.0)%float = Ok v ->
   exists p, VescPacketSetDuty ids x = Ok p /\
     payload (raw p) = COMM_SET_DUTY ids :: be32_bytes (v mod 2 ^ 32) /\
     v mod 2 ^ 32 = 2 ^ 32 + v) /\
  (double_to_int32 (x * 1000.0)%float = Ok v ->
   exists p, VescPacketSetCurrent ids x = Ok p /\
     payload (raw p) = COMM_SET_CURRENT ids :: be32_bytes (v mod 2 ^ 32) /\
     v mod 2 ^ 32 = 2 ^ 32 + v) /\
  (double_to_int32 (x * 1000.0)%float = Ok v ->
   exists p, VescPacketSetCurrentBrake ids x = Ok p /\
     payload (raw p) = COMM_SET_CURRENT_BRAKE ids :: be32_bytes (v mod 2 ^ 32) /\
     v mod 2 ^ 32 = 2 ^ 32 + v) /\
  (double_to_int32 x = Ok v ->
   exists p, VescPacketSetRPM ids x = Ok p /\
     payload (raw p) = COMM_SET_RPM ids :: be32_bytes (v mod 2 ^ 32) /\
     v mod 2 ^ 32 = 2 ^ 32 + v) /\
  (double_to_int32 (x * 1000000.0)%float = Ok v ->
   exists p, VescPacketSetPos ids x = Ok p /\
     payload (raw p) = COMM_SET_POS ids :: be32_bytes (v mod 2 ^ 32) /\
     v mod 2 ^ 32 = 2 ^ 32 + v) /\
  (double_to_int16 (x * 1000.0)%float = Ok v ->
   exists p, VescPacketSetServoPos ids x = Ok p /\
     payload (raw p) = COMM_SET_SERVO_POS ids :: be16_bytes (v mod 2 ^ 16) /\
     v mod 2 ^ 16 = 2 ^ 16 + v).
Proof.
  intros Hids Hneg. unfold ids_in_range in Hids. cbn [forallb] in Hids.
  repeat (apply andb_true_iff in Hids; destruct Hids as [? Hids]).
  repeat match goal with
         | H : (0 <=? _) = true |- _ => apply Z.leb_le in H
         | H : (_ <? 256) = true |- _ => apply Z.ltb_lt in H
         end.
  assert (Hw32 : forall name id y, 0 <= id < 256 -> double_to_int32 y = Ok v ->
            exists p,
              (do p <- VescPacket_id name 5 id;
               do v <- double_to_int32 y;
               Ok (store_crc (store_int32 p v))) = Ok p /\
              payload (raw p) = id :: be32_bytes (v mod 2 ^ 32) /\
              v mod 2 ^ 32 = 2 ^ 32 + v).
  { intros name id y Hid Hy. eexists. split; [|split].
    - apply int32_encoder_Ok. split; [exact Hid|]. exists v. split; [exact Hy | reflexivity].
    - apply small_packet_payload.
    - apply double_to_int32_range in Hy. destruct Hy as [_ Hr].
      apply (twos_complement_negative 31). lia. }
  repeat split; intros Hv.
  1-5: apply Hw32; [lia | exact Hv].
  eexists. split; [|split].
  - unfold VescPacketSetServoPos. apply int16_encoder_Ok. split; [lia|].
    exists v. split; [exact Hv | reflexivity].
  - apply small_packet_payload.
  - apply double_to_int16_range in Hv. destruct Hv as [_ Hr].
    apply (twos_complement_negative 15). lia.
Qed.

Lemma negative_setpoint_bytes_witness :
  (exists p, VescPacketSetDuty vesc_ids (-1.5) = Ok p /\
     payload (raw p) = 5 :: be32_bytes (-150000 mod 2 ^ 32) /\
     -150000 mod 2 ^ 32 = 2 ^ 32 + -150000) /\
  (exists p, VescPacketSetCurrent vesc_ids (-1.5) = Ok p /\
     payload (raw p) = 6 :: be32_bytes (-1500 mod 2 ^ 32) /\
     -1500 mod 2 ^ 32 = 2 ^ 32 + -1500) /\
  (exists p, VescPacketSetCurrentBrake vesc_ids (-1.5) = Ok p /\
     payload (raw p) = 7 :: be32_bytes (-1500 mod 2 ^ 32) /\
     -1500 mod 2 ^ 32 = 2 ^ 32 + -1500) /\
  (exists p, VescPacketSetRPM vesc_ids (-1.5) = Ok p /\
     payload (raw p) = 8 :: be32_bytes (-1 mod 2 ^ 32) /\
     -1 mod 2 ^ 32 = 2 ^ 32 + -1) /\
  (exists p, VescPacketSetPos vesc_ids (-1.5) = Ok p /\
     payload (raw p) = 9 :: be32_bytes (-1500000 mod 2 ^ 32) /\
     -1500000 mod 2 ^ 32 = 2 ^ 32 + -1500000) /\
  (exists p, VescPacketSetServoPos vesc_ids (-1.5) = Ok p /\
     payload (raw p) = 12 :: be16_bytes (-1500 mod 2 ^ 16) /\
     -1500 mod 2 ^ 16 = 2 ^ 16 + -1500).
Proof.
  assert (Hids : ids_in_range vesc_ids = true) by reflexivity.
  destruct (negative_setpoint_bytes vesc_ids (-1.5) (-150000) Hids ltac:(lia))
    as (Hduty & _).
  destruct (negative_setpoint_bytes vesc_ids (-1.5) (-1500) Hids ltac:(lia))
    as (_ & Hcurrent & Hbrake & _ & _ & Hservo).
  destruct (negative_setpoint_bytes vesc_ids (-1.5) (-1) Hids ltac:(lia))
    as (_ & _ & _ & Hrpm & _).
  destruct (negative_setpoint_bytes vesc_ids (-1.5) (-1500000) Hids ltac:(lia))
    as (_ & _ & _ & _ & Hpos & _).
  split; [apply Hduty; vm_compute; reflexivity|].
  split; [apply Hcurrent; vm_compute; reflexivity|].
  split; [apply Hbrake; vm_compute; reflexivity|].
  split; [apply Hrpm; vm_compute; reflexivity|].
  split; [apply Hpos; vm_compute; reflexivity|].
  apply Hservo; vm_compute; reflexivity.
Defined.

Example SetServoPos_negative_bytes :
  be16_bytes (-1500 mod 2 ^ 16) = [0xFA; 0x24].
Proof. vm_compute. reflexivity. Qed.

(** ** Reads *)

Lemma deref_drop (f : VescFrame) (k : nat) :
  deref f k =
  {| outcome := match drop (payload_first f) (frame_ f) !! k with
                | Some b => Ok b
                | None => Undefined
                end;
     reads := [k] |}.
Proof. unfold deref. rewrite lookup_drop. reflexivity. Qed.

Lemma tbind_Ok {A B : Type} (m : Traced A) (k : A -> Traced B) (a : A) :
  outcome m = Ok a -> tbind m k = after_reads (reads m) (k a).
Proof. intros H. unfold tbind. rewrite H. reflexivity. Qed.

Lemma tbind_Undefined {A B : Type} (m : Traced A) (k : A -> Traced B) :
  outcome m = Undefined ->
  tbind m k = {| outcome := Undefined; reads := reads m |}.
Proof. intros H. unfold tbind. rewrite H. reflexivity. Qed.

Lemma tbind_reads_incl {A B : Type} (m : Traced A) (k : A -> Traced B) (x : nat) :
  In x (reads m) -> In x (reads (tbind m k)).
Proof.
  intros H. unfold tbind. destruct (outcome m); cbn [reads after_reads]; try exact H.
  apply in_or_app. left. exact H.
Qed.

(** Reading a run of consecutive offsets that lie in the buffer. *)
Lemma deref_all_segment (f : VescFrame) (seg : list Z) (b : nat) :
  (forall i, (i < length seg)%nat ->
     drop (payload_first f) (frame_ f) !! (b + i)%nat = seg !! i) ->
  deref_all f (seq b (length seg)) =
  {| outcome := Ok seg; reads := seq b (length seg) |}.
Proof.
  revert b. induction seg as [|c seg IH]; intros b Hseg; [reflexivity|].
  cbn [length seq deref_all].
  rewrite deref_drop.
  specialize (Hseg 0%nat ltac:(cbn; lia)) as H0.
  rewrite Nat.add_0_r in H0. rewrite H0. cbn [lookup list_lookup].
  rewrite IH.
  - unfold tbind, tret, after_reads. cbn [outcome reads app]. rewrite app_nil_r. reflexivity.
  - intros i Hi. specialize (Hseg (S i) ltac:(cbn; lia)).
    replace (S b + i)%nat with (b + S i)%nat by lia. exact Hseg.
Qed.

(** A run of offsets one of which falls outside the buffer. *)
Lemma deref_all_outside (f : VescFrame) (ks : list nat) (k : nat) :
  In k ks ->
  (length (frame_ f) <= payload_first f + k)%nat ->
  outcome (deref_all f ks) = Undefined.
Proof.
  induction ks as [|k0 ks IH]; intros Hin Hout; [destruct Hin|].
  cbn [deref_all]. unfold deref at 1.
  destruct (frame_ f !! (payload_first f + k0)%nat) as [b|] eqn:Hb.
  - destruct Hin as [->|Hin].
    + apply lookup_lt_Some in Hb. lia.
    + unfold tbind at 1. cbn [outcome reads after_reads].
      rewrite (tbind_Undefined (deref_all f ks)) by (apply IH; assumption).
      reflexivity.
  - reflexivity.
Qed.

(** ** The name loop *)

Lemma hwname_loop_name (name rest : list Z) (i j : nat) (hw : list Z) :
  Forall (fun c => c <> 0) name ->
  hwname_loop (name ++ 0 :: rest) i j hw =
  {| outcome := Ok (match name with
                    | [] => j
                    | _ :: _ => (i + length name - 1)%nat
                    end, hw ++ name);
     reads := name_reads i (length name) |}.
Proof.
  revert i j hw. induction name as [|c name IH]; intros i j hw Hname.
  - cbn [app hwname_loop]. rewrite Z.eqb_refl, app_nil_r. unfold name_reads.
    cbn [length seq flat_map app]. rewrite Nat.add_0_r. reflexivity.
  - apply Forall_cons in Hname. destruct Hname as [Hc Hname].
    cbn [app hwname_loop]. apply Z.eqb_neq in Hc. rewrite Hc.
    rewrite IH by exact Hname. unfold after_reads. cbn [outcome reads app].
    f_equal.
    + f_equal. f_equal.
      * destruct name; cbn [length]; lia.
      * rewrite <- app_assoc. reflexivity.
    + unfold name_reads. cbn [length seq flat_map app].
      replace (3 + i + S (length name))%nat with (3 + S i + length name)%nat by lia.
      replace (S (3 + i)) with (3 + S i)%nat by lia. reflexivity.
Qed.

(** The loop reads the byte after any run of non-zero bytes it starts on,
    also when that byte lies beyond the buffer. *)
Lemma hwname_loop_reads_next (pre rest : list Z) (i j : nat) (hw : list Z) :
  Forall (fun c => c <> 0) pre ->
  In (3 + i + length pre)%nat (reads (hwname_loop (pre ++ rest) i j hw)).
Proof.
  revert i j hw. induction pre as [|c pre IH]; intros i j hw Hpre.
  - cbn [app length]. rewrite Nat.add_0_r.
    destruct rest as [|c rest]; cbn [hwname_loop]; [left; reflexivity|].
    destruct (c =? 0); cbn [reads]; left; reflexivity.
  - apply Forall_cons in Hpre. destruct Hpre as [Hc Hpre].
    cbn [app hwname_loop length]. apply Z.eqb_neq in Hc. rewrite Hc.
    cbn [reads after_reads app]. right. right.
    replace (3 + i + S (length pre))%nat with (3 + S i + length pre)%nat by lia.
    apply IH. exact Hpre.
Qed.

(** When the loop ends, it ended on a zero byte of the buffer, and [j] is
    one less than the number of bytes before it (or unchanged when there is
    none). *)
Lemma hwname_loop_Ok (mem : list Z) (i j : nat) (hw : list Z) (j' : nat) (hw' : list Z) :
  outcome (hwname_loop mem i j hw) = Ok (j', hw') ->
  exists L : nat,
    mem !! L = Some 0 /\
    ((L = 0%nat /\ j' = j) \/ (0 < L /\ j' = i + L - 1)%nat).
Proof.
  revert i j hw. induction mem as [|c mem IH]; intros i j hw H.
  - discriminate H.
  - cbn [hwname_loop] in H. destruct (c =? 0) eqn:Hc.
    + apply Z.eqb_eq in Hc. subst c. cbn [outcome] in H. injection H as <- <-.
      exists 0%nat. split; [reflexivity | left; split; reflexivity].
    + cbn [outcome after_reads] in H. apply IH in H. destruct H as [L [HL Hj]].
      exists (S L). split; [exact HL|]. right. split; [lia|].
      destruct Hj as [[-> ->]|[HLpos ->]]; lia.
Qed.

Lemma lookup_after (pre l : list Z) (k i : nat) :
  k = (length pre + i)%nat -> (pre ++ l) !! k = l !! i.
Proof. intros ->. rewrite lookup_app_r by lia. f_equal. lia. Qed.

Lemma map_add_seq (b n : nat) :
  map (fun u => (b + u)%nat) (seq 0 n) = seq b n.
Proof.
  change (map (fun u => (b + u)%nat) (seq 0 n)) with (Nat.add b <$> seq 0 n).
  rewrite fmap_add_seq. f_equal. lia.
Qed.

(** The buffer from the payload start on begins with the payload. *)
Lemma payload_prefix (r : VescFrame) :
  drop (payload_first r) (frame_ r) =
  payload r ++ drop (payload_second r - payload_first r)
                    (drop (payload_first r) (frame_ r)).
Proof. unfold payload. symmetry. apply take_drop. Qed.

(** ** Firmware version: layout *)

(** C8, as the code has it. For a firmware-version payload whose name has at
    least one character and whose name terminator is at offset [t], the
    decoder takes the identifier from the 12 bytes right after the
    terminator (offsets [t+1] to [t+12]), the paired flag from the byte right
    after the identifier (offset [t+13]) and the device version from offset
    [t+15]: the byte at [t+14], between the paired flag and the device
    version, is not read. All offsets depend on [t] only. *)
Theorem FWVersion_layout (r : VescFrame) (id major minor : Z)
    (name uuid : list Z) (paired skipped dev : Z) (rest : list Z) :
  payload r = [id; major; minor] ++ name ++ [0] ++ uuid ++
              [paired; skipped; dev] ++ rest ->
  name <> [] ->
  Forall (fun c => c <> 0) name ->
  length uuid = 12%nat ->
  let t := (3 + length name)%nat in
  payload r !! t = Some 0 /\
  VescPacketFWVersion r =
  {| outcome := Ok {| fw_packet := VescPacket_raw "FWVersion" r;
                      major_ := major;
                      minor_ := minor;
                      hwname_ := name;
                      uuid_ := uuid;
                      paired_ := negb (paired =? 0);
                      devVersion_ := dev |};
     reads := [1; 2]%nat ++ name_reads 0 (length name) ++
              seq (t + 1) 12 ++ [t + 13; t + 15]%nat |}.
Proof.
  intros Hpl Hne Hname Huuid t.
  split.
  { rewrite Hpl. subst t.
    rewrite (lookup_after [id; major; minor] _ _ (length name)) by reflexivity.
    rewrite (lookup_after name _ _ 0) by lia. reflexivity. }
  pose proof (payload_prefix r) as Hmem. rewrite Hpl in Hmem.
  set (tail := drop (payload_second r - payload_first r)
                 (drop (payload_first r) (frame_ r))) in Hmem.
  set (mem0 := drop (payload_first r) (frame_ r)) in *.
  assert (Hj : S (match name with
                  | [] => 0
                  | _ :: _ => 0 + length name - 1
                  end) = length name).
  { destruct name as [|c name']; [contradiction|]. cbn [length]. lia. }
  assert (Hm3 : drop (payload_first r + 3) (frame_ r) =
                name ++ 0 :: uuid ++ [paired; skipped; dev] ++ rest ++ tail).
  { rewrite <- drop_drop. fold mem0. rewrite Hmem.
    rewrite <- !app_assoc. cbn [app drop]. reflexivity. }
  assert (Hat : forall i x,
            (uuid ++ [paired; skipped; dev] ++ rest ++ tail) !! i = Some x ->
            mem0 !! (3 + length name + 1 + i)%nat = Some x).
  { intros i x Hx. rewrite Hmem.
    replace (([id; major; minor] ++ name ++ [0] ++ uuid ++
              [paired; skipped; dev] ++ rest) ++ tail)
      with (([id; major; minor] ++ name ++ [0]) ++
            (uuid ++ [paired; skipped; dev] ++ rest ++ tail))
      by (rewrite <- !app_assoc; reflexivity).
    rewrite (lookup_after _ _ _ i); [exact Hx|].
    cbn [length app]. rewrite length_app. cbn [length]. lia. }
  unfold VescPacketFWVersion.
  rewrite (deref_drop r 1). fold mem0. rewrite Hmem at 1.
  cbn [app lookup list_lookup].
  unfold tbind at 1. cbn [outcome reads].
  rewrite (deref_drop r 2). fold mem0. rewrite Hmem at 1.
  cbn [app lookup list_lookup].
  unfold tbind at 1. cbn [outcome reads].
  rewrite Hm3, hwname_loop_name by exact Hname.
  unfold tbind at 1. cbn [outcome reads fst snd]. rewrite Hj.
  rewrite (map_add_seq (3 + length name + 1) 12).
  rewrite <- Huuid at 1.
  rewrite deref_all_segment.
  2:{ intros i Hi. fold mem0.
      destruct (uuid !! i) as [x|] eqn:Hx.
      - apply Hat. rewrite lookup_app_l by exact Hi. exact Hx.
      - apply lookup_ge_None in Hx. lia. }
  unfold tbind at 1. cbn [outcome reads].
  rewrite (deref_drop r (3 + length name + 1 + 12)). fold mem0.
  rewrite (Hat 12%nat paired).
  2:{ rewrite lookup_app_r by lia. rewrite Huuid. reflexivity. }
  unfold tbind at 1. cbn [outcome reads].
  rewrite (deref_drop r (3 + length name + 2 + 12 + 1)). fold mem0.
  replace (3 + length name + 2 + 12 + 1)%nat with (3 + length name + 1 + 14)%nat by lia.
  rewrite (Hat 14%nat dev).
  2:{ rewrite lookup_app_r by lia. rewrite Huuid. reflexivity. }
  unfold tbind, tret, after_reads. cbn [outcome reads app].
  f_equal. rewrite Huuid. subst t.
  replace (3 + length name + 1 + 12)%nat with (3 + length name + 13)%nat by lia.
  replace (3 + length name + 1 + 14)%nat with (3 + length name + 15)%nat by lia.
  reflexivity.
Qed.

(** ** Firmware version: no terminator in the payload *)

Lemma hwname_loop_no_Abort (mem : list Z) (i j : nat) (hw : list Z) :
  outcome (hwname_loop mem i j hw) <> Abort.
Proof.
  revert i j hw. induction mem as [|c mem IH]; intros i j hw; cbn [hwname_loop].
  - discriminate.
  - destruct (c =? 0); cbn [outcome after_reads]; [discriminate | apply IH].
Qed.

Lemma deref_inside (f : VescFrame) (k : nat) :
  (payload_first f + k < length (frame_ f))%nat ->
  exists b, deref f k = {| outcome := Ok b; reads := [k] |}.
Proof.
  intros H. unfold deref.
  destruct (lookup_lt_is_Some_2 (frame_ f) (payload_first f + k)%nat H) as [b Hb].
  exists b. rewrite Hb. reflexivity.
Qed.

Lemma payload_lookup (r : VescFrame) (k : nat) :
  (k < payload_second r - payload_first r)%nat ->
  payload r !! k = frame_ r !! (payload_first r + k)%nat.
Proof.
  intros H. unfold payload. rewrite lookup_take_lt by exact H.
  apply lookup_drop.
Qed.

(** C3, as the code has it. When a firmware-version payload has no NUL byte
    from offset 3 to its end, the decoder does not fail at the end of the
    payload: the name loop goes on and reads the byte at the offset equal to
    the payload length (the first byte after the payload; offset 3 when the
    payload is shorter than that), and for a frame with the three trailing
    envelope bytes the constructor runs into a read outside the frame
    buffer, which is undefined behaviour and not a decode failure. *)
Theorem FWVersion_no_terminator (r : VescFrame) :
  (payload_first r <= payload_second r)%nat ->
  (payload_second r + 3)%nat = length (frame_ r) ->
  (forall k, (3 <= k)%nat -> payload r !! k <> Some 0) ->
  In (Nat.max 3 (payload_second r - payload_first r))
     (reads (VescPacketFWVersion r)) /\
  outcome (VescPacketFWVersion r) = Undefined.
Proof.
  intros Hle Hlen Hnz.
  set (size := (payload_second r - payload_first r)%nat).
  set (mem := drop (payload_first r + 3) (frame_ r)).
  assert (Hmemlen : length mem = size).
  { subst mem size. rewrite length_drop. lia. }
  assert (Hmem : forall i x, mem !! i = Some x -> (i + 3 < size)%nat -> x <> 0).
  { intros i x Hx Hi ->. subst mem. rewrite lookup_drop in Hx.
    apply (Hnz (3 + i)%nat); [lia|].
    rewrite payload_lookup by (fold size; lia).
    rewrite <- Hx. f_equal. lia. }
  assert (Hpre : Forall (fun c => c <> 0) (take (size - 3) mem)).
  { apply Forall_lookup. intros i x Hx.
    apply lookup_take_Some in Hx. destruct Hx as [Hx Hi].
    apply (Hmem i x Hx). lia. }
  assert (Hprelen : length (take (size - 3) mem) = (size - 3)%nat).
  { rewrite length_take. lia. }
  destruct (deref_inside r 1 ltac:(lia)) as [major Hmajor].
  destruct (deref_inside r 2 ltac:(lia)) as [minor Hminor].
  set (loop := hwname_loop mem 0 0 []).
  assert (Hread : In (Nat.max 3 size) (reads loop)).
  { subst loop. rewrite <- (take_drop (size - 3) mem).
    replace (Nat.max 3 size) with (3 + 0 + length (take (size - 3) mem))%nat
      by (rewrite Hprelen; lia).
    apply hwname_loop_reads_next. exact Hpre. }
  unfold VescPacketFWVersion. fold mem. fold loop.
  rewrite Hmajor, Hminor.
  rewrite (tbind_Ok _ _ major) by reflexivity.
  rewrite (tbind_Ok {| outcome := Ok minor; reads := [2%nat] |} _ minor) by reflexivity.
  cbn [after_reads outcome reads].
  destruct (outcome loop) as [[j' hw']| |] eqn:Hloop.
  - split.
    + right. right. apply tbind_reads_incl. exact Hread.
    + rewrite (tbind_Ok loop _ (j', hw') Hloop). cbn [after_reads outcome fst snd].
      apply hwname_loop_Ok in Hloop. destruct Hloop as [L [HL Hj]].
      assert (HLlt : (L < size)%nat)
        by (apply lookup_lt_Some in HL; lia).
      assert (HLge : (size <= L + 3)%nat).
      { destruct (Nat.lt_ge_cases (L + 3) size) as [Hlt|Hge]; [|exact Hge].
        exfalso. apply (Hmem L 0 HL Hlt). reflexivity. }
      rewrite tbind_Undefined; [reflexivity|].
      apply (deref_all_outside r _ (3 + S j' + 1 + 11)%nat).
      * apply in_map_iff. exists 11%nat. split; [reflexivity|].
        apply in_seq. lia.
      * fold size in Hmemlen. lia.
  - exfalso. exact (hwname_loop_no_Abort mem 0 0 [] Hloop).
  - split.
    + right. right. apply tbind_reads_incl. exact Hread.
    + rewrite (tbind_Undefined loop _ Hloop). reflexivity.
Qed.

Example sample_frames_crc :
  CRC_Calculate (payload fw_frame) CRC_TYPE = 67 * 256 + 130 /\
  CRC_Calculate (payload fw_frame_empty_name) CRC_TYPE = 51 * 256 + 235 /\
  CRC_Calculate (payload fw_frame_unterminated) CRC_TYPE = 68 * 256 + 94 /\
  CRC_Calculate (payload values_frame) CRC_TYPE = 4 * 256 + 20 /\
  CRC_Calculate (payload values_frame_short) CRC_TYPE = 45 * 256 + 123.
Proof. vm_compute. repeat split. Qed.

Lemma FWVersion_no_terminator_witness :
  In (Nat.max 3 (payload_second fw_frame_unterminated
                 - payload_first fw_frame_unterminated))
     (reads (VescPacketFWVersion fw_frame_unterminated)) /\
  outcome (VescPacketFWVersion fw_frame_unterminated) = Undefined.
Proof.
  apply (FWVersion_no_terminator fw_frame_unterminated).
  - cbn. lia.
  - reflexivity.
  - intros k Hk. destruct k as [|[|[|[|k]]]]; try lia; vm_compute; discriminate.
Defined.

(** The payload [0; 5; 2; 72] has four bytes and no NUL from offset 3 on. The
    decoder reads offsets 4, 5 and 6 (the CRC and the terminator) and then
    offset 7, outside the frame buffer: it reads past the payload, and what
    follows is undefined rather than a decode failure. *)
Lemma FWVersion_no_terminator_counterexample :
  payload fw_frame_unterminated = [0; 5; 2; 72] /\
  VescPacketFWVersion fw_frame_unterminated =
  {| outcome := Undefined;
     reads := [1; 2; 3; 3; 4; 4; 5; 5; 6; 6; 7]%nat |} /\
  frame_ fw_frame_unterminated !! (payload_first fw_frame_unterminated + 7)%nat = None.
Proof. vm_compute. repeat split. Qed.

Lemma FWVersion_layout_witness :
  let t := (3 + length [72; 87])%nat in
  payload fw_frame !! t = Some 0 /\
  VescPacketFWVersion fw_frame =
  {| outcome := Ok {| fw_packet := VescPacket_raw "FWVersion" fw_frame;
                      major_ := 5;
                      minor_ := 2;
                      hwname_ := [72; 87];
                      uuid_ := [1; 2; 3; 4; 5; 6; 7; 8; 9; 10; 11; 12];
                      paired_ := negb (1 =? 0);
                      devVersion_ := 0xBB |};
     reads := [1; 2]%nat ++ name_reads 0 (length [72; 87]) ++
              seq (t + 1) 12 ++ [t + 13; t + 15]%nat |}.
Proof.
  apply (FWVersion_layout fw_frame 0 5 2 [72; 87]
           [1; 2; 3; 4; 5; 6; 7; 8; 9; 10; 11; 12] 1 0xAA 0xBB []).
  - reflexivity.
  - discriminate.
  - repeat constructor; discriminate.
  - reflexivity.
Defined.

(** In [fw_frame] the name terminator is at offset 5 and the paired flag at
    offset 18. The byte right after the paired flag, at offset 19, is 0xAA;
    the decoder reports the byte at offset 20, 0xBB, as the device version. *)
Lemma FWVersion_layout_counterexample :
  payload fw_frame !! 5%nat = Some 0 /\
  payload fw_frame !! (5 + 13)%nat = Some 1 /\
  payload fw_frame !! (5 + 14)%nat = Some 0xAA /\
  payload fw_frame !! (5 + 15)%nat = Some 0xBB /\
  exists fw, outcome (VescPacketFWVersion fw_frame) = Ok fw /\
             paired_ fw = true /\
             devVersion_ fw = 0xBB /\
             Some (devVersion_ fw) <> payload fw_frame !! (5 + 14)%nat.
Proof.
  repeat (split; [vm_compute; reflexivity|]).
  eexists. split; [vm_compute; reflexivity|].
  split; [reflexivity|]. split; [reflexivity|]. vm_compute. discriminate.
Qed.

(** With an empty name the terminator is at offset 3 and the decoder takes
    the identifier from offset 5 on, one byte late. *)
Example FWVersion_empty_name :
  payload fw_frame_empty_name !! 3%nat = Some 0 /\
  exists fw, outcome (VescPacketFWVersion fw_frame_empty_name) = Ok fw /\
             hwname_ fw = [] /\
             uuid_ fw = [2; 3; 4; 5; 6; 7; 8; 9; 10; 11; 12; 1] /\
             take 12 (drop (3 + 1) (payload fw_frame_empty_name)) =
               [1; 2; 3; 4; 5; 6; 7; 8; 9; 10; 11; 12].
Proof.
  split; [vm_compute; reflexivity|].
  eexists. split; [vm_compute; reflexivity|]. repeat split.
Qed.

(** ** Values: field reads *)

Lemma int32_congr (a b : Z) :
  a mod 4294967296 = b mod 4294967296 -> int32 a = int32 b.
Proof. intros H. unfold int32, uint32. rewrite H. reflexivity. Qed.

Lemma be_int32_words (b3 b2 b1 b0 : Z) :
  int32 (uint32 (uint32 (uint32 (Z.shiftl (uint32 b3) 24)
                         + uint32 (Z.shiftl (uint32 b2) 16))
                 + uint32 (Z.shiftl (uint32 b1) 8))
         + uint32 b0)
  = be_int32 b3 b2 b1 b0.
Proof.
  unfold be_int32. apply int32_congr. unfold uint32.
  rewrite !Z.shiftl_mul_pow2 by lia.
  change (2 ^ 24) with 16777216. change (2 ^ 16) with 65536.
  change (2 ^ 8) with 256.
  Z.div_mod_to_equations. lia.
Qed.

Lemma read_int32_inside (p : VescPacket) (k : nat) (b3 b2 b1 b0 : Z) :
  frame_ (raw p) !! (payload_first (raw p) + k)%nat = Some b3 ->
  frame_ (raw p) !! (payload_first (raw p) + (k + 1))%nat = Some b2 ->
  frame_ (raw p) !! (payload_first (raw p) + (k + 2))%nat = Some b1 ->
  frame_ (raw p) !! (payload_first (raw p) + (k + 3))%nat = Some b0 ->
  read_int32 p k =
  {| outcome := Ok (be_int32 b3 b2 b1 b0);
     reads := [k; k + 1; k + 2; k + 3]%nat |}.
Proof.
  intros H3 H2 H1 H0. unfold read_int32, deref.
  rewrite H3, H2, H1, H0. unfold tbind, tret, after_reads.
  cbn [outcome reads app]. rewrite be_int32_words. reflexivity.
Qed.

Lemma read_int32_outside (p : VescPacket) (k : nat) :
  (length (frame_ (raw p)) <= payload_first (raw p) + (k + 3))%nat ->
  outcome (read_int32 p k) = Undefined.
Proof.
  intros Hout. unfold read_int32, deref.
  rewrite (lookup_ge_None_2 _ _ Hout).
  destruct (frame_ (raw p) !! (payload_first (raw p) + k)%nat); [|reflexivity].
  destruct (frame_ (raw p) !! (payload_first (raw p) + (k + 1))%nat); [|reflexivity].
  destruct (frame_ (raw p) !! (payload_first (raw p) + (k + 2))%nat); reflexivity.
Qed.

Lemma scaled_Ok (t : Traced Z) (d : float) (v : Z) (ks : list nat) :
  t = {| outcome := Ok v; reads := ks |} ->
  scaled t d = {| outcome := Ok (double_of_int v / d)%float; reads := ks |}.
Proof.
  intros ->. unfold scaled, tbind, tret, after_reads. cbn [outcome reads].
  rewrite app_nil_r. reflexivity.
Qed.

Lemma scaled_Undefined (t : Traced Z) (d : float) :
  outcome t = Undefined -> outcome (scaled t d) = Undefined.
Proof. intros H. unfold scaled. rewrite tbind_Undefined by exact H. reflexivity. Qed.

(** C4, as the code has it. The Values constructor accepts every frame
    without looking at the payload length, and the average-Vq accessor reads
    the four bytes at offsets 69 to 72 from the payload start without
    comparing them with the payload end: whenever those bytes lie in the
    frame buffer it returns their big-endian int32 divided by 1000, and when
    offset 72 lies outside the frame buffer the read is undefined behaviour.
    No outcome is a decode error. *)
Theorem Values_reads_unchecked (r : VescFrame) :
  let p := VescPacketValues r in
  p = {| name_ := "Values"; raw := r |} /\
  (forall b3 b2 b1 b0 : Z,
     frame_ r !! (payload_first r + 69)%nat = Some b3 ->
     frame_ r !! (payload_first r + 70)%nat = Some b2 ->
     frame_ r !! (payload_first r + 71)%nat = Some b1 ->
     frame_ r !! (payload_first r + 72)%nat = Some b0 ->
     avg_vq p =
     {| outcome := Ok (double_of_int (be_int32 b3 b2 b1 b0) / 1e3)%float;
        reads := [69; 70; 71; 72]%nat |}) /\
  ((length (frame_ r) <= payload_first r + 72)%nat ->
     outcome (avg_vq p) = Undefined).
Proof.
  cbv zeta. split; [reflexivity|]. split.
  - intros b3 b2 b1 b0 H3 H2 H1 H0. unfold avg_vq.
    apply scaled_Ok. apply (read_int32_inside (VescPacketValues r) 69); assumption.
  - intros Hout. unfold avg_vq. apply scaled_Undefined.
    apply read_int32_outside. exact Hout.
Qed.

Lemma Values_reads_unchecked_witness :
  avg_vq (VescPacketValues values_frame) =
  {| outcome := Ok (double_of_int (be_int32 1 1 1 1) / 1e3)%float;
     reads := [69; 70; 71; 72]%nat |} /\
  outcome (avg_vq (VescPacketValues (raw valid_packet))) = Undefined.
Proof.
  split.
  - apply (Values_reads_unchecked values_frame); reflexivity.
  - apply (Values_reads_unchecked (raw valid_packet)). cbn. lia.
Defined.

(** [values_frame_short] has a payload of 70 bytes (offsets 0 to 69). The
    constructor accepts it, and the average-Vq accessor returns a number made
    of the last payload byte, the two CRC bytes and the terminator. *)
Lemma Values_reads_unchecked_counterexample :
  length (payload values_frame_short) = 70%nat /\
  raw (VescPacketValues values_frame_short) = values_frame_short /\
  avg_vq (VescPacketValues values_frame_short) =
  {| outcome := Ok (double_of_int (be_int32 1 45 123 3) / 1e3)%float;
     reads := [69; 70; 71; 72]%nat |} /\
  be_int32 1 45 123 3 = 19757827 /\
  frame_ values_frame_short !! (payload_first values_frame_short + 70)%nat = Some 45 /\
  frame_ values_frame_short !! (payload_first values_frame_short + 71)%nat = Some 123 /\
  frame_ values_frame_short !! (payload_first values_frame_short + 72)%nat = Some 3.
Proof. vm_compute. repeat split. Qed.

(** ** The scanning loop *)

Section DeframerProperties.

Variable createPacket : Buffer -> Z -> option VescPacket * Z.

Lemma scan_step_skip (buffer_ : Buffer) (s : scan_state) (b : Z) :
  buffer_ !! iter s = Some b ->
  is_start_marker b = false ->
  scan_step createPacket buffer_ s =
  Running {| iter := S (iter s); bytes_needed := bytes_needed s; trace := trace s |}.
Proof. intros Hb Hm. unfold scan_step. rewrite Hb, Hm. reflexivity. Qed.

Lemma scan_step_invalid (buffer_ : Buffer) (s : scan_state) (b needed : Z) :
  buffer_ !! iter s = Some b ->
  is_start_marker b = true ->
  createPacket (drop (iter s) buffer_) (bytes_needed s) = (None, needed) ->
  needed <= 0 ->
  scan_step createPacket buffer_ s =
  Running {| iter := S (iter s); bytes_needed := needed; trace := trace s |}.
Proof.
  intros Hb Hm Hc Hn. unfold scan_step. rewrite Hb, Hm, Hc.
  replace (0 <? needed) with false by (symmetry; apply Z.ltb_ge; exact Hn).
  reflexivity.
Qed.

Lemma scan_step_need_more (buffer_ : Buffer) (s : scan_state) (b needed : Z) :
  buffer_ !! iter s = Some b ->
  is_start_marker b = true ->
  createPacket (drop (iter s) buffer_) (bytes_needed s) = (None, needed) ->
  0 < needed ->
  scan_step createPacket buffer_ s =
  Exited {| iter := iter s; bytes_needed := needed; trace := trace s |}.
Proof.
  intros Hb Hm Hc Hn. unfold scan_step. rewrite Hb, Hm, Hc.
  replace (0 <? needed) with true by (symmetry; apply Z.ltb_lt; exact Hn).
  reflexivity.
Qed.

Lemma scan_step_packet (buffer_ : Buffer) (s : scan_state) (b needed : Z)
    (p : VescPacket) :
  buffer_ !! iter s = Some b ->
  is_start_marker b = true ->
  createPacket (drop (iter s) buffer_) (bytes_needed s) = (Some p, needed) ->
  (iter s + length (frame_ (raw p)) <= length buffer_)%nat ->
  scan_step createPacket buffer_ s =
  Running {| iter := (iter s + length (frame_ (raw p)))%nat;
             bytes_needed := needed;
             trace := trace s ++ [EvHandler p] |}.
Proof.
  intros Hb Hm Hc Hn. unfold scan_step. rewrite Hb, Hm, Hc. cbn [iter].
  replace (iter s + length (frame_ (raw p)) <=? length buffer_)%nat with true
    by (symmetry; apply Nat.leb_le; exact Hn).
  reflexivity.
Qed.

(** From a cursor before [k], with nothing but non-markers and invalid
    candidates in between, the loop reaches [k] byte by byte. *)
Lemma scan_loop_reaches (buffer_ : Buffer) (k d : nat) :
  forall s : scan_state,
    (iter s + d = k)%nat ->
    (k <= length buffer_)%nat ->
    (forall j b, (iter s <= j < k)%nat -> buffer_ !! j = Some b ->
                 is_start_marker b = true ->
                 reports_invalid createPacket buffer_ j) ->
    forall n, exists needed,
      scan_loop createPacket (d + n) buffer_ s =
      scan_loop createPacket n buffer_
        {| iter := k; bytes_needed := needed; trace := trace s |}.
Proof.
  induction d as [|d IH]; intros s Hk Hlen Hinv n.
  - exists (bytes_needed s). cbn [Nat.add].
    replace k with (iter s) by lia. destruct s; reflexivity.
  - assert (Hlt : (iter s < length buffer_)%nat) by lia.
    destruct (lookup_lt_is_Some_2 buffer_ (iter s) Hlt) as [b Hb].
    cbn [Nat.add scan_loop].
    destruct (is_start_marker b) eqn:Hm.
    + destruct (Hinv (iter s) b ltac:(lia) Hb Hm (bytes_needed s))
        as [needed [Hc Hn]].
      rewrite (scan_step_invalid buffer_ s b needed Hb Hm Hc Hn).
      apply (IH {| iter := S (iter s); bytes_needed := needed; trace := trace s |});
        cbn [iter]; try lia.
      intros j b' Hj. apply Hinv. lia.
    + rewrite (scan_step_skip buffer_ s b Hb Hm).
      apply (IH {| iter := S (iter s); bytes_needed := bytes_needed s;
                   trace := trace s |}); cbn [iter]; try lia.
      intros j b' Hj. apply Hinv. lia.
Qed.

(** C1, as the code has it. At a start marker where [createPacket] finds no
    packet, the loop advances the cursor by exactly one byte and goes on when
    no more bytes are needed (an invalid frame), and leaves with the cursor
    unchanged when more bytes are needed. Hence, when every start marker
    between the cursor and a later valid frame is an invalid candidate, the
    loop reaches that frame and calls the handler on it; [d] is the distance
    from the cursor to the frame. *)
Theorem resynchronisation (buffer_ : Buffer) (s : scan_state) :
  (forall b needed,
     buffer_ !! iter s = Some b ->
     is_start_marker b = true ->
     createPacket (drop (iter s) buffer_) (bytes_needed s) = (None, needed) ->
     (needed <= 0 ->
      scan_step createPacket buffer_ s =
      Running {| iter := S (iter s); bytes_needed := needed; trace := trace s |}) /\
     (0 < needed ->
      scan_step createPacket buffer_ s =
      Exited {| iter := iter s; bytes_needed := needed; trace := trace s |})) /\
  (forall (d : nat) (b : Z) (p : VescPacket),
     let k := (iter s + d)%nat in
     (forall j c, (iter s <= j < k)%nat -> buffer_ !! j = Some c ->
                  is_start_marker c = true ->
                  reports_invalid createPacket buffer_ j) ->
     buffer_ !! k = Some b ->
     is_start_marker b = true ->
     reports_packet createPacket buffer_ k p ->
     (k + length (frame_ (raw p)) <= length buffer_)%nat ->
     exists needed,
       scan_loop createPacket (d + 1) buffer_ s =
       Running {| iter := (k + length (frame_ (raw p)))%nat;
                  bytes_needed := needed;
                  trace := trace s ++ [EvHandler p] |}).
Proof.
  split.
  - intros b needed Hb Hm Hc. split; intros Hn.
    + apply (scan_step_invalid buffer_ s b needed); assumption.
    + apply (scan_step_need_more buffer_ s b needed); assumption.
  - intros d b p k Hinv Hb Hm Hp Hfit.
    destruct (scan_loop_reaches buffer_ k d s eq_refl
                ltac:(apply lookup_lt_Some in Hb; lia) Hinv 1) as [needed Hreach].
    rewrite Hreach. cbn [scan_loop].
    set (sk := {| iter := k; bytes_needed := needed; trace := trace s |}).
    specialize (Hp needed).
    destruct (createPacket (drop k buffer_) needed) as [o needed'] eqn:Hc.
    cbn [fst] in Hp. subst o.
    exists needed'.
    rewrite (scan_step_packet buffer_ sk b needed' p Hb Hm Hc Hfit).
    reflexivity.
Qed.

End DeframerProperties.

Lemma resynchronisation_witness :
  let cp := createPacket_spec vesc_ids in
  let s0 := {| iter := 0; bytes_needed := VESC_MIN_FRAME_SIZE; trace := [EvLock] |} in
  scan_step cp noisy_buffer s0 =
    Running {| iter := 1; bytes_needed := 0; trace := [EvLock] |} /\
  scan_step cp (3 :: valid_frame) s0 =
    Exited {| iter := 0; bytes_needed := 512; trace := [EvLock] |} /\
  exists needed,
    scan_loop cp (2 + 1) noisy_buffer s0 =
    Running {| iter := (2 + 6)%nat; bytes_needed := needed;
               trace := [EvLock; EvHandler valid_packet] |}.
Proof.
  intros cp s0.
  destruct (resynchronisation cp noisy_buffer s0) as [Hstep Hreach].
  destruct (resynchronisation cp (3 :: valid_frame) s0) as [Hstep' _].
  split; [|split].
  - apply (Hstep 2 0); [reflexivity | reflexivity | vm_compute; reflexivity | lia].
  - apply (Hstep' 3 512); [reflexivity | reflexivity | vm_compute; reflexivity | lia].
  - apply (Hreach 2%nat 2 valid_packet).
    + intros j c Hj _ _ needed_in. exists 0. subst s0. cbn [iter] in Hj.
      destruct j as [|[|j]]; [| |lia]; (split; [vm_compute; reflexivity | lia]).
    + reflexivity.
    + reflexivity.
    + intros needed_in. vm_compute. reflexivity.
    + cbn. lia.
Defined.

(** [corrupt_frame] is [valid_frame] with its CRC bytes zeroed, and is
    reported invalid. Its terminator, 3, is also the start marker of a large
    frame: read as one, with the two bytes that follow as its length, it
    announces 513 payload bytes, so [createPacket] asks for 512 more bytes
    and the pass stops there. The valid frame behind it is not decoded, in
    this pass or in any later pass over the same bytes. *)
Lemma resynchronisation_counterexample :
  let cp := createPacket_spec vesc_ids in
  cp corrupt_frame VESC_MIN_FRAME_SIZE = (None, 0) /\
  cp (corrupt_frame ++ valid_frame) VESC_MIN_FRAME_SIZE = (None, 0) /\
  cp valid_frame VESC_MIN_FRAME_SIZE = (Some valid_packet, 0) /\
  packet_creation_pass cp valid_frame =
    Some {| buffer_after := []; bytes_needed_after := VESC_MIN_FRAME_SIZE;
            events := [EvLock; EvHandler valid_packet; EvUnlock; EvSleep] |} /\
  packet_creation_pass cp (corrupt_frame ++ valid_frame) =
    Some {| buffer_after := 3 :: valid_frame; bytes_needed_after := 512;
            events := [EvLock; EvUnlock; EvSleep] |} /\
  packet_creation_pass cp (3 :: valid_frame) =
    Some {| buffer_after := 3 :: valid_frame; bytes_needed_after := 512;
            events := [EvLock; EvUnlock; EvSleep] |}.
Proof. vm_compute. repeat split. Qed.

(** ** The mutex and the handler *)

Lemma lock_held_handlers (held : bool) (hs : list event) :
  handlers_only hs ->
  fold_left (fun held e =>
               match e with
               | EvLock => true
               | EvUnlock => false
               | EvHandler _ => held
               | EvSleep => held
               end) hs held = held.
Proof.
  intros H. revert held. induction H as [|e hs [p ->] _ IH]; intros held.
  - reflexivity.
  - cbn [fold_left]. apply IH.
Qed.

(** Whatever precedes a handler call in [handlers ++ rest], when [rest] has
    no handler call, is handler calls only. *)
Lemma split_at_handler (hs rest pre post : list event) (p : VescPacket) :
  handlers_only hs ->
  (forall q, ~ In (EvHandler q) rest) ->
  hs ++ rest = pre ++ EvHandler p :: post ->
  handlers_only pre /\ exists post', post = post' ++ rest.
Proof.
  intros Hhs Hrest. revert pre. induction Hhs as [|e hs [q ->] _ IH]; intros pre Heq.
  - exfalso. apply (Hrest p). cbn [app] in Heq. rewrite Heq.
    apply in_or_app. right. left. reflexivity.
  - destruct pre as [|e pre].
    + cbn [app] in Heq. injection Heq as _ <-.
      split; [constructor|]. exists hs. reflexivity.
    + cbn [app] in Heq. injection Heq as <- Heq.
      destruct (IH pre Heq) as [Hpre Hpost].
      split; [|exact Hpost]. constructor; [exists q; reflexivity | exact Hpre].
Qed.

Section PassProperties.

Variable createPacket : Buffer -> Z -> option VescPacket * Z.

Lemma scan_step_trace (buffer_ : Buffer) (s : scan_state) :
  exists hs, handlers_only hs /\
    trace (state_of (scan_step createPacket buffer_ s)) = trace s ++ hs.
Proof.
  unfold scan_step.
  destruct (buffer_ !! iter s) as [b|]; [|exists []; split; [constructor|]; cbn; apply eq_sym, app_nil_r].
  destruct (is_start_marker b);
    [|exists []; split; [constructor|]; cbn; apply eq_sym, app_nil_r].
  destruct (createPacket (drop (iter s) buffer_) (bytes_needed s)) as [[p|] needed].
  - exists [EvHandler p]. split; [repeat constructor; exists p; reflexivity|].
    cbn [iter]. destruct (_ <=? _)%nat; reflexivity.
  - exists []. split; [constructor|].
    destruct (0 <? needed); cbn; apply eq_sym, app_nil_r.
Qed.

Lemma scan_loop_trace (n : nat) (buffer_ : Buffer) (s : scan_state) :
  exists hs, handlers_only hs /\
    trace (state_of (scan_loop createPacket n buffer_ s)) = trace s ++ hs.
Proof.
  revert s. induction n as [|n IH]; intros s.
  - exists []. split; [constructor|]. cbn. apply eq_sym, app_nil_r.
  - cbn [scan_loop].
    destruct (scan_step_trace buffer_ s) as [hs [Hhs Hstep]].
    destruct (scan_step createPacket buffer_ s) as [s'|s'|s'] eqn:Hs;
      cbn [state_of] in *; try (exists hs; split; assumption).
    destruct (IH s') as [hs' [Hhs' Hloop]].
    exists (hs ++ hs'). split; [apply Forall_app; split; assumption|].
    rewrite Hloop, Hstep. apply eq_sym, app_assoc.
Qed.

(** A pass takes the mutex, calls handlers, releases the mutex and sleeps. *)
Lemma packet_creation_pass_events (buffer_ : Buffer) (r : pass_result) :
  packet_creation_pass createPacket buffer_ = Some r ->
  exists hs, handlers_only hs /\ events r = EvLock :: hs ++ [EvUnlock; EvSleep].
Proof.
  unfold packet_creation_pass. destruct buffer_ as [|b0 buffer_].
  - intros H. injection H as <-. exists []. split; [constructor | reflexivity].
  - set (s0 := {| iter := 0; bytes_needed := VESC_MIN_FRAME_SIZE; trace := [EvLock] |}).
    destruct (scan_loop_trace (S (length (b0 :: buffer_))) (b0 :: buffer_) s0)
      as [hs [Hhs Htr]].
    destruct (scan_loop createPacket (S (length (b0 :: buffer_))) (b0 :: buffer_) s0)
      as [s|s|s]; try discriminate.
    intros H. injection H as <-. cbn [events state_of] in *.
    exists hs. split; [exact Hhs|]. rewrite Htr. reflexivity.
Qed.

(** The inner loop leaves within [length buffer_ + 1] iterations when every
    packet [createPacket] returns has a non-empty frame that fits the bytes
    it was given. *)
Lemma scan_loop_exits (buffer_ : Buffer) :
  (forall bytes needed_in p needed,
     createPacket bytes needed_in = (Some p, needed) ->
     (0 < length (frame_ (raw p)) <= length bytes)%nat) ->
  forall (n : nat) (s : scan_state),
    (iter s <= length buffer_)%nat ->
    (length buffer_ - iter s < n)%nat ->
    exists s', scan_loop createPacket n buffer_ s = Exited s'.
Proof.
  intros Hfit. induction n as [|n IH]; intros s Hle Hn; [lia|].
  cbn [scan_loop]. unfold scan_step.
  destruct (buffer_ !! iter s) as [b|] eqn:Hb; [|exists s; reflexivity].
  apply lookup_lt_Some in Hb.
  destruct (is_start_marker b).
  - destruct (createPacket (drop (iter s) buffer_) (bytes_needed s))
      as [[p|] needed] eqn:Hc.
    + apply Hfit in Hc. rewrite length_drop in Hc. cbn [iter].
      replace (iter s + length (frame_ (raw p)) <=? length buffer_)%nat with true
        by (symmetry; apply Nat.leb_le; lia).
      apply IH; cbn [iter]; lia.
    + destruct (0 <? needed); [eexists; reflexivity|].
      apply IH; cbn [iter]; lia.
  - apply IH; cbn [iter]; lia.
Qed.

Lemma packet_creation_pass_returns (buffer_ : Buffer) :
  (forall bytes needed_in p needed,
     createPacket bytes needed_in = (Some p, needed) ->
     (0 < length (frame_ (raw p)) <= length bytes)%nat) ->
  exists r, packet_creation_pass createPacket buffer_ = Some r.
Proof.
  intros Hfit. unfold packet_creation_pass.
  destruct buffer_ as [|b0 buffer_]; [eexists; reflexivity|].
  edestruct (scan_loop_exits (b0 :: buffer_) Hfit (S (length (b0 :: buffer_))))
    as [s' Hs']; [| |rewrite Hs'; eexists; reflexivity]; cbn [iter]; lia.
Qed.

(** C9, as the code has it. In every pass the packet handler is called
    between [buffer_mutex_.lock()] and [buffer_mutex_.unlock()]: at each
    handler call the consumer holds the mutex, so a call of
    [serial_receive_callback] made at that moment blocks and appends nothing
    until the handler has returned and the pass has released the mutex. *)
Theorem handler_called_with_mutex_held (buffer_ : Buffer) (r : pass_result)
    (pre post : list event) (p : VescPacket) :
  packet_creation_pass createPacket buffer_ = Some r ->
  events r = pre ++ EvHandler p :: post ->
  lock_held pre = true /\
  (forall received new_bytes,
     serial_receive_callback (lock_held pre) received new_bytes = None) /\
  In EvUnlock post /\
  lock_held (events r) = false.
Proof.
  intros Hpass Hsplit.
  destruct (packet_creation_pass_events buffer_ r Hpass) as [hs [Hhs Hev]].
  rewrite Hev in Hsplit.
  destruct pre as [|e pre]; [discriminate Hsplit|].
  cbn [app] in Hsplit. injection Hsplit as <- Hsplit.
  destruct (split_at_handler hs [EvUnlock; EvSleep] pre post p Hhs) as [Hpre [post' ->]].
  { intros q [H|[H|[]]]; discriminate H. }
  { exact Hsplit. }
  assert (Hheld : lock_held (EvLock :: pre) = true).
  { unfold lock_held. cbn [fold_left]. apply lock_held_handlers. exact Hpre. }
  split; [exact Hheld|]. split.
  - intros received new_bytes. rewrite Hheld. reflexivity.
  - split.
    + apply in_or_app. right. left. reflexivity.
    + rewrite Hev. unfold lock_held. cbn [fold_left].
      rewrite fold_left_app. rewrite (lock_held_handlers true hs Hhs). reflexivity.
Qed.

End PassProperties.

Lemma handler_called_with_mutex_held_witness :
  let cp := createPacket_spec vesc_ids in
  packet_creation_pass cp noisy_buffer =
    Some {| buffer_after := []; bytes_needed_after := VESC_MIN_FRAME_SIZE;
            events := [EvLock; EvHandler valid_packet; EvUnlock; EvSleep] |} /\
  lock_held [EvLock] = true /\
  (forall received new_bytes,
     serial_receive_callback (lock_held [EvLock]) received new_bytes = None) /\
  In EvUnlock [EvUnlock; EvSleep] /\
  lock_held [EvLock; EvHandler valid_packet; EvUnlock; EvSleep] = false.
Proof.
  intros cp.
  assert (Hpass : packet_creation_pass cp noisy_buffer =
            Some {| buffer_after := []; bytes_needed_after := VESC_MIN_FRAME_SIZE;
                    events := [EvLock; EvHandler valid_packet; EvUnlock; EvSleep] |})
    by (vm_compute; reflexivity).
  split; [exact Hpass|].
  exact (handler_called_with_mutex_held cp noisy_buffer _ [EvLock] [EvUnlock; EvSleep]
           valid_packet Hpass eq_refl).
Defined.

(** A pass over one valid frame: the handler is called after the lock and
    before the unlock, and bytes that arrive during the call cannot be
    appended. *)
Lemma handler_called_with_mutex_held_counterexample :
  let cp := createPacket_spec vesc_ids in
  packet_creation_pass cp valid_frame =
    Some {| buffer_after := []; bytes_needed_after := VESC_MIN_FRAME_SIZE;
            events := [EvLock] ++ EvHandler valid_packet :: [EvUnlock; EvSleep] |} /\
  lock_held [EvLock] = true /\
  lock_held [EvLock] <> false /\
  serial_receive_callback (lock_held [EvLock]) [] valid_frame = None /\
  serial_receive_callback (lock_held []) [] valid_frame = Some valid_frame.
Proof. vm_compute. repeat split. discriminate. Qed.

(** ** The modelled factory returns frames that fit *)

Lemma tbind_Ok_inv {A B : Type} (m : Traced A) (k : A -> Traced B) (x : B) :
  outcome (tbind m k) = Ok x ->
  exists a, outcome m = Ok a /\ outcome (k a) = Ok x.
Proof.
  unfold tbind. destruct (outcome m) as [a| |]; cbn [outcome after_reads];
    try discriminate.
  intros H. exists a. split; [reflexivity | exact H].
Qed.

Lemma VescPacketFWVersion_packet (f : VescFrame) (fw : FWVersion) :
  outcome (VescPacketFWVersion f) = Ok fw ->
  fw_packet fw = VescPacket_raw "FWVersion" f.
Proof.
  unfold VescPacketFWVersion. intros H.
  apply tbind_Ok_inv in H. destruct H as [major [_ H]].
  apply tbind_Ok_inv in H. destruct H as [minor [_ H]].
  apply tbind_Ok_inv in H. destruct H as [jn [_ H]].
  apply tbind_Ok_inv in H. destruct H as [uuid [_ H]].
  apply tbind_Ok_inv in H. destruct H as [paired [_ H]].
  apply tbind_Ok_inv in H. destruct H as [dev [_ H]].
  cbn [tret outcome] in H. injection H as <-. reflexivity.
Qed.

Lemma decode_Decoded (bytes : Buffer) (f : VescFrame) :
  decode bytes = Decoded f ->
  (VESC_MIN_FRAME_SIZE <= Z.of_nat (length (frame_ f)))
  /\ (length (frame_ f) <= length bytes)%nat.
Proof.
  unfold decode. destruct bytes as [|sof bytes]; [discriminate|].
  set (all := sof :: bytes).
  set (header := if sof =? VESC_SOF_VAL_SMALL_FRAME then 2%nat else 3%nat).
  assert (Hheader : (2 <= header)%nat) by (subst header; destruct (sof =? _); lia).
  destruct (length all <? header)%nat; [discriminate|].
  set (len := if sof =? VESC_SOF_VAL_SMALL_FRAME then _ else _).
  destruct (VESC_MAX_PAYLOAD_SIZE <? len); [discriminate|].
  destruct (length all <? header + Z.to_nat len + 3)%nat eqn:Hshort; [discriminate|].
  apply Nat.ltb_ge in Hshort.
  destruct (_ && _); [|discriminate].
  intros H. injection H as <-. cbn [frame_].
  rewrite length_take. unfold VESC_MIN_FRAME_SIZE. lia.
Qed.

Lemma createPacket_spec_fits (ids : COMM_PACKET_ID) (bytes : Buffer)
    (needed_in : Z) (p : VescPacket) (needed : Z) :
  createPacket_spec ids bytes needed_in = (Some p, needed) ->
  (0 < length (frame_ (raw p)) <= length bytes)%nat.
Proof.
  unfold createPacket_spec.
  destruct (decode bytes) as [f|n|] eqn:Hd; try discriminate.
  apply decode_Decoded in Hd. unfold VESC_MIN_FRAME_SIZE in Hd.
  destruct (payload f) as [|id pl]; [discriminate|].
  destruct (id =? COMM_FW_VERSION ids).
  - destruct (outcome (VescPacketFWVersion f)) as [fw| |] eqn:Hfw; try discriminate.
    intros H. injection H as <- _.
    rewrite (VescPacketFWVersion_packet f fw Hfw). cbn [VescPacket_raw raw]. lia.
  - destruct (id =? COMM_GET_VALUES ids); [|discriminate].
    intros H. injection H as <- _. cbn [VescPacketValues VescPacket_raw raw]. lia.
Qed.

(** With the modelled factory every pass returns. *)
Lemma packet_creation_pass_spec_returns (ids : COMM_PACKET_ID) (buffer_ : Buffer) :
  exists r, packet_creation_pass (createPacket_spec ids) buffer_ = Some r.
Proof.
  apply packet_creation_pass_returns. intros bytes needed_in p needed.
  apply createPacket_spec_fits.
Qed.

(** * Further properties *)

(** ** The frame constructors *)

Lemma replicate_frame (k : nat) (h : nat) :
  replicate (h + (k + 3)) 0 = replicate h 0 ++ replicate k 0 ++ [0; 0; 0].
Proof. rewrite !replicate_add. reflexivity. Qed.

Lemma VescFrame_int_Ok (payload_size : Z) :
  0 <= payload_size <= 1024 ->
  VescFrame_int payload_size =
  Ok {| frame_ := frame_header payload_size ++
                  replicate (Z.to_nat payload_size) 0 ++ [0; 0; VESC_EOF_VAL];
        payload_first := length (frame_header payload_size);
        payload_second := (length (frame_header payload_size)
                           + Z.to_nat payload_size)%nat |}.
Proof.
  intros Hin. unfold VescFrame_int, frame_header.
  replace ((0 <=? payload_size) && (payload_size <=? 1024)) with true
    by (symmetry; apply andb_true_iff; split; apply Z.leb_le; lia).
  cbn [assert rbind].
  unfold VESC_MIN_FRAME_SIZE, VESC_EOF_VAL, VESC_SOF_VAL_SMALL_FRAME,
    VESC_SOF_VAL_LARGE_FRAME.
  set (k := Z.to_nat payload_size).
  destruct (payload_size <? 256) eqn:Hsmall.
  + apply Z.ltb_lt in Hsmall.
    replace (Z.to_nat (5 + payload_size)) with (2 + (k + 3))%nat by lia.
    rewrite replicate_frame. cbn [replicate app insert list_insert length].
    rewrite length_app, length_replicate. cbn [length].
    replace (S (S (k + 3)) - 1)%nat with (S (S (length (replicate k 0) + 2)))
      by (rewrite length_replicate; lia).
    cbn [insert list_insert]. unfold insert.
    change (list_insert ?i ?x ?l)
      with (@insert nat Z (list Z) (@list_insert Z) i x l).
    rewrite insert_app_r_alt by lia.
    replace (length (replicate k 0%Z) + 2 - length (replicate k 0%Z))%nat
      with 2%nat by lia.
    unfold uint8. rewrite Z.mod_small by lia. reflexivity.
  + apply Z.ltb_ge in Hsmall.
    replace (Z.to_nat (5 + 1 + payload_size)) with (3 + (k + 3))%nat by lia.
    rewrite replicate_frame. cbn [replicate app insert list_insert length].
    rewrite length_app, length_replicate. cbn [length].
    replace (S (S (S (k + 3))) - 1)%nat
      with (S (S (S (length (replicate k 0) + 2))))
      by (rewrite length_replicate; lia).
    cbn [insert list_insert]. unfold insert.
    change (list_insert ?i ?x ?l)
      with (@insert nat Z (list Z) (@list_insert Z) i x l).
    rewrite insert_app_r_alt by lia.
    replace (length (replicate k 0%Z) + 2 - length (replicate k 0%Z))%nat
      with 2%nat by lia.
    rewrite shiftr_8_div, land_255_mod. unfold uint8.
    assert (0 <= payload_size / 256 < 256)
      by (split; [apply Z.div_pos; lia | apply Z.div_lt_upper_bound; lia]).
    rewrite (Z.mod_small (payload_size / 256)) by lia.
    rewrite Z.mod_mod by lia. reflexivity.
Qed.

Lemma VescFrame_int_Abort (payload_size : Z) :
  payload_size < 0 \/ 1024 < payload_size -> VescFrame_int payload_size = Abort.
Proof.
  intros Hout. unfold VescFrame_int.
  replace ((0 <=? payload_size) && (payload_size <=? 1024)) with false;
    [reflexivity|].
  symmetry. apply andb_false_iff.
  destruct Hout; [left; apply Z.leb_gt | right; apply Z.leb_gt]; lia.
Qed.

Lemma frame_header_length (payload_size : Z) :
  length (frame_header payload_size) = if payload_size <? 256 then 2%nat else 3%nat.
Proof. unfold frame_header. destruct (payload_size <? 256); reflexivity. Qed.

(** The payload of a frame laid out as header, payload, three more bytes. *)
Lemma payload_of_layout (h pl tl : list Z) :
  payload {| frame_ := h ++ pl ++ tl;
             payload_first := length h;
             payload_second := (length h + length pl)%nat |} = pl.
Proof.
  unfold payload. cbn [frame_ payload_first payload_second].
  rewrite drop_app_length.
  replace (length h + length pl - length h)%nat with (length pl) by lia.
  apply take_app_length.
Qed.

(** X1. The size constructor aborts on a payload size outside 0..1024.
    Otherwise it builds exactly the header, [payload_size] zero bytes, two
    zero bytes in the CRC field and the terminator, and its payload range is
    the run of zero bytes. *)
Theorem VescFrame_int_contents (payload_size : Z) :
  (payload_size < 0 \/ 1024 < payload_size -> VescFrame_int payload_size = Abort) /\
  (0 <= payload_size <= 1024 ->
   exists f,
     VescFrame_int payload_size = Ok f /\
     frame_ f = frame_header payload_size ++
                replicate (Z.to_nat payload_size) 0 ++ [0; 0; VESC_EOF_VAL] /\
     payload f = replicate (Z.to_nat payload_size) 0).
Proof.
  split; [apply VescFrame_int_Abort|].
  intros Hin. eexists. split; [apply VescFrame_int_Ok; exact Hin|].
  split; [reflexivity|].
  pose proof (payload_of_layout (frame_header payload_size)
                (replicate (Z.to_nat payload_size) 0) [0; 0; VESC_EOF_VAL]) as H.
  rewrite length_replicate in H. exact H.
Qed.

Lemma VescFrame_int_contents_witness :
  VescFrame_int (-1) = Abort /\
  exists f,
    VescFrame_int 300 = Ok f /\
    frame_ f = frame_header 300 ++ replicate (Z.to_nat 300) 0 ++ [0; 0; VESC_EOF_VAL] /\
    payload f = replicate (Z.to_nat 300) 0.
Proof.
  destruct (VescFrame_int_contents (-1)) as [Habort _].
  destruct (VescFrame_int_contents 300) as [_ Hok].
  split; [apply Habort; lia | apply Hok; lia].
Defined.

Lemma replicate_pos (k : nat) :
  (0 < k)%nat -> replicate k 0 = 0 :: replicate (k - 1) 0.
Proof. intros H. destruct k; [lia|]. cbn [replicate]. f_equal. f_equal. lia. Qed.

(** X2. The id constructor returns a packet exactly for a payload size of 1
    to 1024 and an id of 0 to 255, and aborts otherwise (also for the payload
    size 0, which the frame constructor accepts). The packet carries the
    name, and its payload is the id followed by zero bytes. *)
Theorem VescPacket_id_contents (name : string) (payload_size payload_id : Z) :
  (payload_size < 1 \/ 1024 < payload_size \/ payload_id < 0 \/ 255 < payload_id ->
   VescPacket_id name payload_size payload_id = Abort) /\
  (1 <= payload_size <= 1024 -> is_byte payload_id ->
   exists p,
     VescPacket_id name payload_size payload_id = Ok p /\
     name_ p = name /\
     frame_ (raw p) =
       frame_header payload_size ++
       (payload_id :: replicate (Z.to_nat payload_size - 1) 0) ++
       [0; 0; VESC_EOF_VAL] /\
     payload (raw p) = payload_id :: replicate (Z.to_nat payload_size - 1) 0).
Proof.
  split.
  - intros Hout. unfold VescPacket_id.
    destruct (Z.lt_ge_cases payload_size 0) as [Hneg|Hnn];
      [rewrite VescFrame_int_Abort by lia; reflexivity|].
    destruct (Z.lt_ge_cases 1024 payload_size) as [Hbig|Hle];
      [rewrite VescFrame_int_Abort by lia; reflexivity|].
    rewrite VescFrame_int_Ok by lia. cbn [rbind].
    destruct ((0 <=? payload_id) && (payload_id <? 256)) eqn:Hid;
      [|reflexivity].
    apply andb_true_iff in Hid. destruct Hid as [H0 H1].
    apply Z.leb_le in H0. apply Z.ltb_lt in H1.
    assert (payload_size = 0) as -> by lia.
    reflexivity.
  - intros Hsize [Hid0 Hid1]. unfold VescPacket_id.
    rewrite VescFrame_int_Ok by lia. cbn [rbind].
    replace ((0 <=? payload_id) && (payload_id <? 256)) with true
      by (symmetry; apply andb_true_iff; split;
          [apply Z.leb_le | apply Z.ltb_lt]; lia).
    cbn [assert rbind payload_first payload_second].
    replace (0 <? Z.of_nat (length (frame_header payload_size)
                            + Z.to_nat payload_size)
                  - Z.of_nat (length (frame_header payload_size))) with true
      by (symmetry; apply Z.ltb_lt; lia).
    cbn [assert rbind]. eexists. split; [reflexivity|].
    unfold poke_payload. cbn [name_ raw frame_ payload_first payload_second].
    rewrite insert_app_r. rewrite (replicate_pos (Z.to_nat payload_size)) by lia.
    cbn [app]. unfold uint8. rewrite Z.mod_small by lia.
    split; [reflexivity|]. split; [reflexivity|].
    pose proof (payload_of_layout (frame_header payload_size)
                  (payload_id :: replicate (Z.to_nat payload_size - 1) 0)
                  [0; 0; VESC_EOF_VAL]) as H.
    cbn [length] in H. rewrite length_replicate in H.
    replace (S (Z.to_nat payload_size - 1)) with (Z.to_nat payload_size) in H by lia.
    exact H.
Qed.

Lemma VescPacket_id_contents_witness :
  VescPacket_id "SetDuty" 0 5 = Abort /\
  VescPacket_id "SetDuty" 5 256 = Abort /\
  exists p,
    VescPacket_id "SetDuty" 5 5 = Ok p /\
    name_ p = "SetDuty"%string /\
    frame_ (raw p) =
      frame_header 5 ++ (5 :: replicate (Z.to_nat 5 - 1) 0) ++ [0; 0; VESC_EOF_VAL] /\
    payload (raw p) = 5 :: replicate (Z.to_nat 5 - 1) 0.
Proof.
  destruct (VescPacket_id_contents "SetDuty" 0 5) as [Ha _].
  destruct (VescPacket_id_contents "SetDuty" 5 256) as [Hb _].
  destruct (VescPacket_id_contents "SetDuty" 5 5) as [_ Hc].
  split; [apply Ha; lia|]. split; [apply Hb; lia|].
  apply Hc; unfold is_byte; lia.
Defined.

(** X3. The range constructor, given the bytes and the payload range of a
    frame the size constructor built, passes all its checks and yields that
    frame again. *)
Theorem VescFrame_ranges_of_int (payload_size : Z) (f : VescFrame) :
  VescFrame_int payload_size = Ok f ->
  VescFrame_ranges (frame_ f) (Z.of_nat (payload_first f))
                   (Z.of_nat (payload_second f)) = Ok f.
Proof.
  intros Hf.
  destruct (Z.lt_ge_cases payload_size 0) as [Hneg|Hnn];
    [rewrite VescFrame_int_Abort in Hf by lia; discriminate|].
  destruct (Z.lt_ge_cases 1024 payload_size) as [Hbig|Hle];
    [rewrite VescFrame_int_Abort in Hf by lia; discriminate|].
  rewrite VescFrame_int_Ok in Hf by lia. injection Hf as <-.
  unfold VescFrame_ranges. cbn [frame_ payload_first payload_second].
  rewrite !length_app, length_replicate, frame_header_length. cbn [length].
  unfold VESC_MIN_FRAME_SIZE, VESC_MAX_FRAME_SIZE, VESC_MAX_PAYLOAD_SIZE.
  set (h := if payload_size <? 256 then 2%nat else 3%nat).
  assert (Hh : (2 <= h <= 3)%nat)
    by (subst h; destruct (payload_size <? 256); lia).
  replace (5 <=? Z.of_nat (h + (Z.to_nat payload_size + 3))) with true
    by (symmetry; apply Z.leb_le; lia).
  cbn [assert rbind].
  replace (Z.of_nat (h + (Z.to_nat payload_size + 3)) <=? 6 + 1024) with true
    by (symmetry; apply Z.leb_le; lia).
  cbn [assert rbind].
  replace (Z.of_nat (h + Z.to_nat payload_size) - Z.of_nat h <=? 1024) with true
    by (symmetry; apply Z.leb_le; lia).
  cbn [assert rbind].
  replace ((0 <? Z.of_nat h)
           && (0 <? Z.of_nat (h + (Z.to_nat payload_size + 3))
                    - Z.of_nat (h + Z.to_nat payload_size))) with true
    by (symmetry; apply andb_true_iff; split; apply Z.ltb_lt; lia).
  cbn [assert rbind]. rewrite !Nat2Z.id. reflexivity.
Qed.

Lemma VescFrame_ranges_of_int_witness :
  exists f, VescFrame_int 1024 = Ok f /\
    VescFrame_ranges (frame_ f) (Z.of_nat (payload_first f))
                     (Z.of_nat (payload_second f)) = Ok f.
Proof.
  destruct (VescFrame_int 1024) as [f| |] eqn:Hf; try (vm_compute in Hf; discriminate).
  exists f. split; [reflexivity|]. apply (VescFrame_ranges_of_int 1024 f Hf).
Defined.

(** ** The encoders as a whole *)

Lemma VescPacket_id_bad_id (name : string) (payload_size payload_id : Z) :
  ~ is_byte payload_id -> VescPacket_id name payload_size payload_id = Abort.
Proof.
  intros Hid. unfold VescPacket_id, VescFrame_int.
  destruct ((0 <=? payload_size) && (payload_size <=? 1024)); [|reflexivity].
  cbn [assert rbind].
  destruct (payload_size <? 256); cbn [rbind];
    (replace ((0 <=? payload_id) && (payload_id <? 256)) with false;
     [reflexivity|]);
    symmetry; apply andb_false_iff; unfold is_byte in Hid;
    destruct (Z.lt_ge_cases payload_id 0);
    [left; apply Z.leb_gt; lia | right; apply Z.ltb_ge; lia
    |left; apply Z.leb_gt; lia | right; apply Z.ltb_ge; lia].
Qed.

Lemma be32_bytes_are_bytes (u : Z) : Forall is_byte (be32_bytes u).
Proof.
  unfold be32_bytes, is_byte. repeat constructor; apply Z.mod_pos_bound; lia.
Qed.

Lemma be16_bytes_are_bytes (u : Z) : Forall is_byte (be16_bytes u).
Proof.
  unfold be16_bytes, is_byte. repeat constructor; apply Z.mod_pos_bound; lia.
Qed.

Lemma field_bytes_shape (r : request) (fs : list Z) :
  field_bytes r = Ok fs ->
  Forall is_byte fs /\
  length fs = match r with
              | requestFWVersion => 0%nat
              | requestState => 0%nat
              | setServo _ => 2%nat
              | _ => 4%nat
              end.
Proof.
  destruct r; cbn [field_bytes];
    try (intros H; injection H as <-; split; [constructor | reflexivity]).
  1-5: destruct (double_to_int32 _) as [v| |]; cbn [rbind]; try discriminate;
       intros H; injection H as <-;
       split; [apply be32_bytes_are_bytes | reflexivity].
  destruct (double_to_int16 _) as [v| |]; cbn [rbind]; try discriminate.
  intros H; injection H as <-.
  split; [apply be16_bytes_are_bytes | reflexivity].
Qed.

(** Every send method builds the small packet of its command id and field
    bytes, when the id is a byte and the conversion is defined. *)
Lemma packet_of_Ok (ids : COMM_PACKET_ID) (r : request) (p : VescPacket) :
  packet_of ids r = Ok p <->
  is_byte (command_id ids r) /\
  exists fs, field_bytes r = Ok fs /\
             p = small_packet (packet_name r) (command_id ids r :: fs).
Proof.
  unfold is_byte.
  destruct r; cbn [packet_of command_id field_bytes packet_name];
    unfold VescPacketRequestFWVersion, VescPacketRequestValues, VescPacketSetDuty,
      VescPacketSetCurrent, VescPacketSetCurrentBrake, VescPacketSetRPM,
      VescPacketSetPos, VescPacketSetServoPos.
  1,2: rewrite request_encoder_Ok; split;
       [intros [Hid ->]; split; [exact Hid|]; exists []; split; reflexivity
       |intros [Hid [fs [Hfs ->]]]; injection Hfs as <-; split; [exact Hid | reflexivity]].
  1-5: rewrite int32_encoder_Ok; split;
       [intros [Hid [v [Hv ->]]]; split; [exact Hid|]; rewrite Hv; cbn [rbind];
        eexists; split; reflexivity
       |intros [Hid [fs [Hfs ->]]]; split; [exact Hid|];
        destruct (double_to_int32 _) as [v| |]; cbn [rbind] in Hfs; try discriminate;
        injection Hfs as <-; exists v; split; reflexivity].
  rewrite int16_encoder_Ok; split.
  - intros [Hid [v [Hv ->]]]. split; [exact Hid|]. rewrite Hv. cbn [rbind].
    eexists. split; reflexivity.
  - intros [Hid [fs [Hfs ->]]]. split; [exact Hid|].
    destruct (double_to_int16 _) as [v| |]; cbn [rbind] in Hfs; try discriminate.
    injection Hfs as <-. exists v. split; reflexivity.
Qed.

(** X4. Every frame a send method hands to the transport consists of
    bytes: each element is in 0..255. *)
Theorem sent_frame_is_bytes (ids : COMM_PACKET_ID) (r : request) (p : VescPacket) :
  packet_of ids r = Ok p -> Forall is_byte (frame_ (raw p)).
Proof.
  intros H. apply packet_of_Ok in H. destruct H as [Hid [fs [Hfs ->]]].
  apply field_bytes_shape in Hfs. destruct Hfs as [Hbytes Hlen].
  unfold small_packet, small_frame. cbn [raw frame_].
  pose proof (CRC_Calculate_range (command_id ids r :: fs)) as Hcrc.
  apply Forall_app. split.
  - unfold VESC_SOF_VAL_SMALL_FRAME, is_byte. cbn [length].
    repeat constructor; try lia; destruct r; lia.
  - apply Forall_app. split.
    + constructor; assumption.
    + unfold VESC_EOF_VAL, is_byte. repeat constructor; try lia.
      * apply Z.div_pos; lia.
      * apply Z.div_lt_upper_bound; lia.
      * apply Z.mod_pos_bound; lia.
      * apply Z.mod_pos_bound; lia.
Qed.

Lemma sent_frame_is_bytes_witness :
  exists p, packet_of vesc_ids (setServo (-0.5)) = Ok p /\
            Forall is_byte (frame_ (raw p)).
Proof.
  destruct (packet_of vesc_ids (setServo (-0.5))) as [p| |] eqn:Hp;
    try (vm_compute in Hp; discriminate).
  exists p. split; [reflexivity|].
  apply (sent_frame_is_bytes vesc_ids (setServo (-0.5)) p Hp).
Defined.

Lemma small_frame_last (pl : list Z) (crc : Z) :
  last (small_frame pl crc) = Some VESC_EOF_VAL.
Proof.
  unfold small_frame.
  replace ([VESC_SOF_VAL_SMALL_FRAME; Z.of_nat (length pl)] ++ pl ++
           [crc / 256; crc mod 256; VESC_EOF_VAL])
    with (([VESC_SOF_VAL_SMALL_FRAME; Z.of_nat (length pl)] ++ pl ++
           [crc / 256; crc mod 256]) ++ [VESC_EOF_VAL])
    by (rewrite <- !app_assoc; reflexivity).
  apply last_snoc.
Qed.

(** X5. The frames have fixed sizes: 6 bytes for the two queries, 8 for the
    servo position and 10 for the other set commands. Each starts with the
    small-frame marker, the payload size and the command id, and ends with
    the terminator. *)
Theorem sent_frame_size (ids : COMM_PACKET_ID) (r : request) (p : VescPacket) :
  packet_of ids r = Ok p ->
  let n := match r with
           | requestFWVersion => 1%nat
           | requestState => 1%nat
           | setServo _ => 3%nat
           | _ => 5%nat
           end in
  length (frame_ (raw p)) = (n + 5)%nat /\
  take 3 (frame_ (raw p)) =
    [VESC_SOF_VAL_SMALL_FRAME; Z.of_nat n; command_id ids r] /\
  last (frame_ (raw p)) = Some VESC_EOF_VAL /\
  name_ p = packet_name r.
Proof.
  intros H. apply packet_of_Ok in H. destruct H as [Hid [fs [Hfs ->]]].
  apply field_bytes_shape in Hfs. destruct Hfs as [_ Hlen].
  cbv zeta. rewrite small_packet_length.
  split; [cbn [length]; rewrite Hlen; destruct r; reflexivity|].
  split.
  - unfold small_packet, small_frame. cbn [raw frame_ name_ length app take].
    rewrite Hlen. destruct r; reflexivity.
  - split; [apply small_frame_last | reflexivity].
Qed.

Lemma sent_frame_size_witness :
  exists p, packet_of vesc_ids (setSpeed 3000) = Ok p /\
    length (frame_ (raw p)) = (5 + 5)%nat /\
    take 3 (frame_ (raw p)) = [VESC_SOF_VAL_SMALL_FRAME; Z.of_nat 5; 8] /\
    last (frame_ (raw p)) = Some VESC_EOF_VAL /\
    name_ p = "SetRPM"%string.
Proof.
  destruct (packet_of vesc_ids (setSpeed 3000)) as [p| |] eqn:Hp;
    try (vm_compute in Hp; discriminate).
  exists p. split; [reflexivity|].
  apply (sent_frame_size vesc_ids (setSpeed 3000) p Hp).
Defined.

(** X6. How a send method ends. With a command id that is not a byte the
    packet constructor aborts. With a byte id it never aborts: it is
    undefined exactly when the conversion of the double is (NaN, an infinity
    or a value whose truncation does not fit the integer type), and
    otherwise returns the packet whose payload is the id followed by the
    field bytes. *)
Theorem send_outcome (ids : COMM_PACKET_ID) (r : request) :
  (~ is_byte (command_id ids r) -> packet_of ids r = Abort) /\
  (is_byte (command_id ids r) ->
   (field_bytes r = Undefined -> packet_of ids r = Undefined) /\
   (forall fs, field_bytes r = Ok fs ->
      exists p, packet_of ids r = Ok p /\
                payload (raw p) = command_id ids r :: fs)) /\
  field_bytes r <> Abort.
Proof.
  split; [|split].
  - intros Hid.
    destruct r; cbn [packet_of command_id] in *;
      unfold VescPacketRequestFWVersion, VescPacketRequestValues, VescPacketSetDuty,
        VescPacketSetCurrent, VescPacketSetCurrentBrake, VescPacketSetRPM,
        VescPacketSetPos, VescPacketSetServoPos;
      rewrite VescPacket_id_bad_id by exact Hid; reflexivity.
  - intros Hid. split.
    + intros Hundef.
      destruct r; cbn [packet_of command_id field_bytes] in *;
        try discriminate Hundef;
        unfold VescPacketSetDuty, VescPacketSetCurrent, VescPacketSetCurrentBrake,
          VescPacketSetRPM, VescPacketSetPos, VescPacketSetServoPos.
      1-5: rewrite VescPacket_id_5 by exact Hid; cbn [rbind];
           destruct (double_to_int32 _) as [v| |]; cbn [rbind] in *;
           try discriminate Hundef; reflexivity.
      rewrite VescPacket_id_3 by exact Hid. cbn [rbind].
      destruct (double_to_int16 _) as [v| |]; cbn [rbind] in *;
        try discriminate Hundef; reflexivity.
    + intros fs Hfs. eexists. split.
      * apply packet_of_Ok. split; [exact Hid|]. exists fs. split; [exact Hfs | reflexivity].
      * apply small_packet_payload.
  - destruct r; cbn [field_bytes]; try discriminate.
    1-5: unfold double_to_int32; destruct (double_trunc _) as [v|];
         [destruct (_ && _)|]; cbn [rbind]; discriminate.
    unfold double_to_int16; destruct (double_trunc _) as [v|];
      [destruct (_ && _)|]; cbn [rbind]; discriminate.
Qed.

Lemma send_outcome_witness :
  packet_of {| COMM_FW_VERSION := 0; COMM_GET_VALUES := 4; COMM_SET_DUTY := 5;
               COMM_SET_CURRENT := 6; COMM_SET_CURRENT_BRAKE := 7;
               COMM_SET_RPM := 300; COMM_SET_POS := 9;
               COMM_SET_SERVO_POS := 12 |} (setSpeed 1) = Abort /\
  packet_of vesc_ids (setSpeed nan) = Undefined /\
  packet_of vesc_ids (setSpeed infinity) = Undefined /\
  packet_of vesc_ids (setSpeed 3e9) = Undefined /\
  packet_of vesc_ids (setServo 40) = Undefined /\
  exists p, packet_of vesc_ids (setSpeed (-2147483648)) = Ok p /\
            payload (raw p) = 8 :: [0x80; 0; 0; 0].
Proof.
  split.
  { apply send_outcome. cbn. unfold is_byte. lia. }
  assert (Hid : forall r, is_byte (command_id vesc_ids r))
    by (intros r; destruct r; cbn; unfold is_byte; lia).
  split; [apply send_outcome; [apply Hid | vm_compute; reflexivity]|].
  split; [apply send_outcome; [apply Hid | vm_compute; reflexivity]|].
  split; [apply send_outcome; [apply Hid | vm_compute; reflexivity]|].
  split; [apply send_outcome; [apply Hid | vm_compute; reflexivity]|].
  apply (send_outcome vesc_ids (setSpeed (-2147483648)));
    [apply Hid | vm_compute; reflexivity].
Defined.

(** ** Writing and reading back an integer field *)

Lemma int32_wrap (v : Z) : - 2 ^ 31 <= v < 2 ^ 31 -> int32 (v mod 2 ^ 32) = v.
Proof.
  intros H. unfold int32, uint32. change 4294967296 with (2 ^ 32).
  rewrite Z.mod_mod by lia.
  change (2 ^ 31) with 2147483648 in *. change (2 ^ 32) with 4294967296.
  destruct (Z.lt_ge_cases v 0) as [Hneg|Hpos].
  - replace (v mod 4294967296) with (v + 4294967296)
      by (apply Z.mod_unique with (q := -1); lia).
    replace (v + 4294967296 <? 2147483648) with false
      by (symmetry; apply Z.ltb_ge; lia).
    lia.
  - rewrite Z.mod_small by lia.
    replace (v <? 2147483648) with true by (symmetry; apply Z.ltb_lt; lia).
    reflexivity.
Qed.

Lemma int16_wrap (v : Z) : - 2 ^ 15 <= v < 2 ^ 15 -> int16 (v mod 2 ^ 16) = v.
Proof.
  intros H. unfold int16, uint16. change 65536 with (2 ^ 16).
  rewrite Z.mod_mod by lia.
  change (2 ^ 15) with 32768 in *. change (2 ^ 16) with 65536.
  destruct (Z.lt_ge_cases v 0) as [Hneg|Hpos].
  - replace (v mod 65536) with (v + 65536)
      by (apply Z.mod_unique with (q := -1); lia).
    replace (v + 65536 <? 32768) with false by (symmetry; apply Z.ltb_ge; lia).
    lia.
  - rewrite Z.mod_small by lia.
    replace (v <? 32768) with true by (symmetry; apply Z.ltb_lt; lia).
    reflexivity.
Qed.

Lemma be_int32_of_be32_bytes (v : Z) :
  - 2 ^ 31 <= v < 2 ^ 31 ->
  let u := v mod 2 ^ 32 in
  be_int32 (u / 2 ^ 24 mod 256) (u / 2 ^ 16 mod 256) (u / 2 ^ 8 mod 256) (u mod 256) = v.
Proof.
  intros Hv u.
  assert (Hu : 0 <= u < 2 ^ 32) by (apply Z.mod_pos_bound; lia).
  pose proof (be32_bytes_value u Hu) as [_ Hsum]. unfold be_int32.
  rewrite Hsum. apply int32_wrap. exact Hv.
Qed.

Lemma read_int16_inside (p : VescPacket) (k : nat) (b1 b0 : Z) :
  frame_ (raw p) !! (payload_first (raw p) + k)%nat = Some b1 ->
  frame_ (raw p) !! (payload_first (raw p) + (k + 1))%nat = Some b0 ->
  read_int16 p k =
  {| outcome := Ok (int16 (Z.shiftl (uint16 b1) 8 + uint16 b0));
     reads := [k; k + 1]%nat |}.
Proof.
  intros H1 H0. unfold read_int16, deref. rewrite H1, H0. reflexivity.
Qed.

Lemma int16_of_be16_bytes (v : Z) :
  - 2 ^ 15 <= v < 2 ^ 15 ->
  let u := v mod 2 ^ 16 in
  int16 (Z.shiftl (uint16 (u / 2 ^ 8 mod 256)) 8 + uint16 (u mod 256)) = v.
Proof.
  intros Hv u.
  assert (Hu : 0 <= u < 2 ^ 16) by (apply Z.mod_pos_bound; lia).
  rewrite <- (int16_wrap v Hv). fold u.
  change (2 ^ 16) with 65536 in *. change (2 ^ 8) with 256.
  unfold uint16. rewrite Z.shiftl_mul_pow2 by lia. change (2 ^ 8) with 256.
  f_equal.
  assert (0 <= u / 256 < 256)
    by (split; [apply Z.div_pos; lia | apply Z.div_lt_upper_bound; lia]).
  rewrite (Z.mod_small (u / 256) 256) by lia.
  rewrite (Z.mod_small (u / 256) 65536) by lia.
  rewrite (Z.mod_small (u mod 256) 65536)
    by (pose proof (Z.mod_pos_bound u 256 ltac:(lia)); lia).
  pose proof (Z.div_mod u 256 ltac:(lia)). lia.
Qed.

Lemma small_packet_int32_read (name : string) (id v : Z) :
  - 2 ^ 31 <= v < 2 ^ 31 ->
  read_int32 (small_packet name (id :: be32_bytes (v mod 2 ^ 32))) 1 =
  {| outcome := Ok v; reads := [1; 2; 3; 4]%nat |}.
Proof.
  intros Hv.
  rewrite (read_int32_inside _ 1
             (v mod 2 ^ 32 / 2 ^ 24 mod 256) (v mod 2 ^ 32 / 2 ^ 16 mod 256)
             (v mod 2 ^ 32 / 2 ^ 8 mod 256) (v mod 2 ^ 32 mod 256));
    try reflexivity.
  rewrite (be_int32_of_be32_bytes v Hv). reflexivity.
Qed.

Lemma small_packet_int16_read (name : string) (id v : Z) :
  - 2 ^ 15 <= v < 2 ^ 15 ->
  read_int16 (small_packet name (id :: be16_bytes (v mod 2 ^ 16))) 1 =
  {| outcome := Ok v; reads := [1; 2]%nat |}.
Proof.
  intros Hv.
  rewrite (read_int16_inside _ 1
             (v mod 2 ^ 16 / 2 ^ 8 mod 256) (v mod 2 ^ 16 mod 256));
    try reflexivity.
  rewrite (int16_of_be16_bytes v Hv). reflexivity.
Qed.

(** X7. The big-endian read of the telemetry accessors inverts the
    big-endian write of the encoders: in the packet of a set command, the
    32-bit read (16-bit for the servo position) at payload offset 1 returns
    the integer the encoder converted the double to, and reads the field
    bytes only. *)
Theorem set_point_round_trip (ids : COMM_PACKET_ID) (x : float) (p : VescPacket) :
  (VescPacketSetDuty ids x = Ok p ->
   exists v, double_to_int32 (x * 100000.0)%float = Ok v /\
     read_int32 p 1 = {| outcome := Ok v; reads := [1; 2; 3; 4]%nat |}) /\
  (VescPacketSetCurrent ids x = Ok p ->
   exists v, double_to_int32 (x * 1000.0)%float = Ok v /\
     read_int32 p 1 = {| outcome := Ok v; reads := [1; 2; 3; 4]%nat |}) /\
  (VescPacketSetCurrentBrake ids x = Ok p ->
   exists v, double_to_int32 (x * 1000.0)%float = Ok v /\
     read_int32 p 1 = {| outcome := Ok v; reads := [1; 2; 3; 4]%nat |}) /\
  (VescPacketSetRPM ids x = Ok p ->
   exists v, double_to_int32 x = Ok v /\
     read_int32 p 1 = {| outcome := Ok v; reads := [1; 2; 3; 4]%nat |}) /\
  (VescPacketSetPos ids x = Ok p ->
   exists v, double_to_int32 (x * 1000000.0)%float = Ok v /\
     read_int32 p 1 = {| outcome := Ok v; reads := [1; 2; 3; 4]%nat |}) /\
  (VescPacketSetServoPos ids x = Ok p ->
   exists v, double_to_int16 (x * 1000.0)%float = Ok v /\
     read_int16 p 1 = {| outcome := Ok v; reads := [1; 2]%nat |}).
Proof.
  assert (H32 : forall name id y,
            (do p <- VescPacket_id name 5 id;
             do v <- double_to_int32 y;
             Ok (store_crc (store_int32 p v))) = Ok p ->
            exists v, double_to_int32 y = Ok v /\
              read_int32 p 1 = {| outcome := Ok v; reads := [1; 2; 3; 4]%nat |}).
  { intros name id y H. apply int32_encoder_Ok in H.
    destruct H as [_ [v [Hv ->]]]. exists v. split; [exact Hv|].
    apply small_packet_int32_read.
    apply double_to_int32_range in Hv. destruct Hv as [_ Hr]. exact Hr. }
  repeat split; try (apply H32).
  intros H. unfold VescPacketSetServoPos in H. apply int16_encoder_Ok in H.
  destruct H as [_ [v [Hv ->]]]. exists v. split; [exact Hv|].
  apply small_packet_int16_read.
  apply double_to_int16_range in Hv. destruct Hv as [_ Hr]. exact Hr.
Qed.

Lemma set_point_round_trip_witness :
  (exists p, VescPacketSetPos vesc_ids (-1.5) = Ok p /\
     exists v, double_to_int32 (-1.5 * 1000000.0)%float = Ok v /\
       read_int32 p 1 = {| outcome := Ok v; reads := [1; 2; 3; 4]%nat |}) /\
  (exists p, VescPacketSetServoPos vesc_ids 0.5 = Ok p /\
     exists v, double_to_int16 (0.5 * 1000.0)%float = Ok v /\
       read_int16 p 1 = {| outcome := Ok v; reads := [1; 2]%nat |}).
Proof.
  split.
  - destruct (VescPacketSetPos vesc_ids (-1.5)) as [p| |] eqn:Hp;
      try (vm_compute in Hp; discriminate).
    exists p. split; [reflexivity|].
    destruct (set_point_round_trip vesc_ids (-1.5) p) as (_ & _ & _ & _ & H & _).
    apply H. exact Hp.
  - destruct (VescPacketSetServoPos vesc_ids 0.5) as [p| |] eqn:Hp;
      try (vm_compute in Hp; discriminate).
    exists p. split; [reflexivity|].
    destruct (set_point_round_trip vesc_ids 0.5 p) as (_ & _ & _ & _ & _ & H).
    apply H. exact Hp.
Defined.

(** ** The Values accessors *)

Lemma read_int32_in_buffer (p : VescPacket) (k : nat) :
  (payload_first (raw p) + k + 3 < length (frame_ (raw p)))%nat ->
  exists v, read_int32 p k =
            {| outcome := Ok v; reads := [k; k + 1; k + 2; k + 3]%nat |}.
Proof.
  intros H.
  destruct (lookup_lt_is_Some_2 (frame_ (raw p)) (payload_first (raw p) + k)%nat
              ltac:(lia)) as [b3 H3].
  destruct (lookup_lt_is_Some_2 (frame_ (raw p)) (payload_first (raw p) + (k + 1))%nat
              ltac:(lia)) as [b2 H2].
  destruct (lookup_lt_is_Some_2 (frame_ (raw p)) (payload_first (raw p) + (k + 2))%nat
              ltac:(lia)) as [b1 H1].
  destruct (lookup_lt_is_Some_2 (frame_ (raw p)) (payload_first (raw p) + (k + 3))%nat
              ltac:(lia)) as [b0 H0].
  eexists. apply (read_int32_inside p k b3 b2 b1 b0); assumption.
Qed.

Lemma read_int16_in_buffer (p : VescPacket) (k : nat) :
  (payload_first (raw p) + k + 1 < length (frame_ (raw p)))%nat ->
  exists v, read_int16 p k =
            {| outcome := Ok v; reads := [k; k + 1]%nat |}.
Proof.
  intros H.
  destruct (lookup_lt_is_Some_2 (frame_ (raw p)) (payload_first (raw p) + k)%nat
              ltac:(lia)) as [b1 H1].
  destruct (lookup_lt_is_Some_2 (frame_ (raw p)) (payload_first (raw p) + (k + 1))%nat
              ltac:(lia)) as [b0 H0].
  eexists. apply (read_int16_inside p k b1 b0); assumption.
Qed.

Lemma scaled_int32_in_buffer (p : VescPacket) (k : nat) (d : float) :
  (payload_first (raw p) + k + 3 < length (frame_ (raw p)))%nat ->
  returns (scaled (read_int32 p k) d) /\
  reads (scaled (read_int32 p k) d) = [k; k + 1; k + 2; k + 3]%nat.
Proof.
  intros H. destruct (read_int32_in_buffer p k H) as [v Hv].
  rewrite (scaled_Ok _ d v _ Hv). split; [eexists|]; reflexivity.
Qed.

Lemma scaled_int16_in_buffer (p : VescPacket) (k : nat) (d : float) :
  (payload_first (raw p) + k + 1 < length (frame_ (raw p)))%nat ->
  returns (scaled (read_int16 p k) d) /\
  reads (scaled (read_int16 p k) d) = [k; k + 1]%nat.
Proof.
  intros H. destruct (read_int16_in_buffer p k H) as [v Hv].
  rewrite (scaled_Ok _ d v _ Hv). split; [eexists|]; reflexivity.
Qed.

Lemma plain_int32_in_buffer (p : VescPacket) (k : nat) :
  (payload_first (raw p) + k + 3 < length (frame_ (raw p)))%nat ->
  returns (read_int32 p k) /\
  reads (read_int32 p k) = [k; k + 1; k + 2; k + 3]%nat.
Proof.
  intros H. destruct (read_int32_in_buffer p k H) as [v Hv].
  rewrite Hv. split; [eexists|]; reflexivity.
Qed.

Lemma deref_in_buffer (f : VescFrame) (k : nat) :
  (payload_first f + k < length (frame_ f))%nat ->
  returns (deref f k) /\ reads (deref f k) = [k].
Proof.
  intros H. destruct (deref_inside f k H) as [b Hb].
  rewrite Hb. split; [eexists|]; reflexivity.
Qed.

Lemma values_reads_seq (p : VescPacket) :
  (payload_first (raw p) + 72 < length (frame_ (raw p)))%nat ->
  values_reads p = seq 1 72.
Proof.
  intros H. unfold values_reads.
  unfold temp_fet, temp_motor, avg_motor_current, avg_input_current, avg_id,
    avg_iq, duty_cycle_now, rpm, v_in, amp_hours, amp_hours_charged, watt_hours,
    watt_hours_charged, tachometer, tachometer_abs, fault_code, pid_pos_now,
    controller_id, temp_mos1, temp_mos2, temp_mos3, avg_vd, avg_vq.
  repeat match goal with
         | |- context [reads (scaled (read_int32 p ?k) ?d)] =>
             rewrite (proj2 (scaled_int32_in_buffer p k d ltac:(lia)))
         | |- context [reads (scaled (read_int16 p ?k) ?d)] =>
             rewrite (proj2 (scaled_int16_in_buffer p k d ltac:(lia)))
         | |- context [reads (read_int32 p ?k)] =>
             rewrite (proj2 (plain_int32_in_buffer p k ltac:(lia)))
         | |- context [reads (deref (raw p) ?k)] =>
             rewrite (proj2 (deref_in_buffer (raw p) k ltac:(lia)))
         end.
  reflexivity.
Qed.

(** X9. The 23 accessors partition the payload: when the buffer holds the
    payload offsets up to 72, the offsets they dereference, taken in the
    order of the accessors, are 1, 2, ..., 72, each exactly once. Offset 0
    (the command id) is read by none. *)
Theorem values_fields_tile (p : VescPacket) :
  (payload_first (raw p) + 72 < length (frame_ (raw p)))%nat ->
  values_reads p = seq 1 72 /\
  List.NoDup (values_reads p) /\
  ~ In 0%nat (values_reads p).
Proof.
  intros H. rewrite (values_reads_seq p H).
  split; [reflexivity|]. split.
  - apply List.seq_NoDup.
  - intros Hin. apply in_seq in Hin. lia.
Qed.

Lemma values_fields_tile_witness :
  values_reads (VescPacketValues values_frame) = seq 1 72 /\
  List.NoDup (values_reads (VescPacketValues values_frame)) /\
  ~ In 0%nat (values_reads (VescPacketValues values_frame)).
Proof. apply (values_fields_tile (VescPacketValues values_frame)). cbn. lia. Defined.

(** X8. On a Values packet whose payload has at least 73 bytes every
    accessor returns a value, and no accessor dereferences an offset at or
    beyond the payload length. *)
Theorem values_accessors_in_payload (p : VescPacket) :
  (payload_second (raw p) <= length (frame_ (raw p)))%nat ->
  (73 <= payload_second (raw p) - payload_first (raw p))%nat ->
  (returns (temp_fet p) /\ returns (temp_motor p) /\
   returns (avg_motor_current p) /\ returns (avg_input_current p) /\
   returns (avg_id p) /\ returns (avg_iq p) /\ returns (duty_cycle_now p) /\
   returns (rpm p) /\ returns (v_in p) /\ returns (amp_hours p) /\
   returns (amp_hours_charged p) /\ returns (watt_hours p) /\
   returns (watt_hours_charged p) /\ returns (tachometer p) /\
   returns (tachometer_abs p) /\ returns (fault_code p) /\
   returns (pid_pos_now p) /\ returns (controller_id p) /\
   returns (temp_mos1 p) /\ returns (temp_mos2 p) /\ returns (temp_mos3 p) /\
   returns (avg_vd p) /\ returns (avg_vq p)) /\
  Forall (fun k => (k < payload_second (raw p) - payload_first (raw p))%nat)
         (values_reads p).
Proof.
  intros Hfit Hsize. split.
  - unfold temp_fet, temp_motor, avg_motor_current, avg_input_current, avg_id,
      avg_iq, duty_cycle_now, rpm, v_in, amp_hours, amp_hours_charged, watt_hours,
      watt_hours_charged, tachometer, tachometer_abs, fault_code, pid_pos_now,
      controller_id, temp_mos1, temp_mos2, temp_mos3, avg_vd, avg_vq.
    repeat split;
      first [ apply scaled_int32_in_buffer; lia
            | apply scaled_int16_in_buffer; lia
            | apply plain_int32_in_buffer; lia
            | apply deref_in_buffer; lia ].
  - assert (Htile : values_reads p = seq 1 72) by (apply values_reads_seq; lia).
    rewrite Htile. apply Forall_forall. intros k Hk.
    apply list_elem_of_In, in_seq in Hk. lia.
Qed.

Lemma values_accessors_in_payload_witness :
  returns (avg_vq (VescPacketValues values_frame)) /\
  returns (fault_code (VescPacketValues values_frame)) /\
  Forall (fun k => (k < 73)%nat) (values_reads (VescPacketValues values_frame)).
Proof.
  destruct (values_accessors_in_payload (VescPacketValues values_frame))
    as [Hret Hreads].
  - cbn. lia.
  - cbn. lia.
  - split; [apply Hret|]. split; [apply Hret | exact Hreads].
Defined.

(** X10. The tachometer accessor decodes two's complement: for bytes
    [b3 b2 b1 b0] at payload offsets 45 to 48 the result is their big-endian
    unsigned value when [b3 < 128] and that value minus 2^32 otherwise, so it
    always lies in the int32 range. *)
Theorem tachometer_twos_complement (p : VescPacket) (b3 b2 b1 b0 : Z) :
  frame_ (raw p) !! (payload_first (raw p) + 45)%nat = Some b3 ->
  frame_ (raw p) !! (payload_first (raw p) + 46)%nat = Some b2 ->
  frame_ (raw p) !! (payload_first (raw p) + 47)%nat = Some b1 ->
  frame_ (raw p) !! (payload_first (raw p) + 48)%nat = Some b0 ->
  is_byte b3 -> is_byte b2 -> is_byte b1 -> is_byte b0 ->
  let u := b3 * 2 ^ 24 + b2 * 2 ^ 16 + b1 * 2 ^ 8 + b0 in
  let v := if b3 <? 128 then u else u - 2 ^ 32 in
  - 2 ^ 31 <= v < 2 ^ 31 /\
  tachometer p = {| outcome := Ok v; reads := [45; 46; 47; 48]%nat |}.
Proof.
  intros H3 H2 H1 H0 [? ?] [? ?] [? ?] [? ?] u v.
  assert (Hv : be_int32 b3 b2 b1 b0 = v /\ - 2 ^ 31 <= v < 2 ^ 31).
  { unfold be_int32, int32, uint32. fold u. subst v.
    change (2 ^ 32) with 4294967296. change (2 ^ 31) with 2147483648.
    assert (Hu : 0 <= u < 4294967296) by (subst u; lia).
    rewrite Z.mod_small by exact Hu.
    destruct (b3 <? 128) eqn:Hb.
    - apply Z.ltb_lt in Hb.
      replace (u <? 2147483648) with true
        by (symmetry; apply Z.ltb_lt; subst u; lia).
      split; [reflexivity | subst u; lia].
    - apply Z.ltb_ge in Hb.
      replace (u <? 2147483648) with false
        by (symmetry; apply Z.ltb_ge; subst u; lia).
      split; [reflexivity | subst u; lia]. }
  destruct Hv as [Hbe Hrange]. split; [exact Hrange|].
  unfold tachometer. rewrite <- Hbe.
  apply (read_int32_inside p 45 b3 b2 b1 b0); assumption.
Qed.

Lemma tachometer_twos_complement_witness :
  let p := VescPacketValues
             {| frame_ := [2; 73; 4] ++ replicate 44 0 ++ [0xFF; 0xFF; 0xFF; 0xFE]
                          ++ replicate 24 0 ++ [0; 0; 3];
                payload_first := 2; payload_second := 75 |} in
  tachometer p = {| outcome := Ok (-2); reads := [45; 46; 47; 48]%nat |}.
Proof.
  intros p.
  assert (Hb : forall b, 0 <= b < 256 -> is_byte b) by (intros b Hb; exact Hb).
  destruct (tachometer_twos_complement p 0xFF 0xFF 0xFF 0xFE
              eq_refl eq_refl eq_refl eq_refl
              (Hb 0xFF ltac:(lia)) (Hb 0xFF ltac:(lia)) (Hb 0xFF ltac:(lia))
              (Hb 0xFE ltac:(lia)))
    as (_ & H).
  exact H.
Defined.

(** ** Firmware version: what a returned packet holds *)

Lemma deref_Ok_inv (f : VescFrame) (k : nat) (b : Z) :
  outcome (deref f k) = Ok b ->
  drop (payload_first f) (frame_ f) !! k = Some b.
Proof.
  rewrite deref_drop. cbn [outcome].
  destruct (drop (payload_first f) (frame_ f) !! k); [|discriminate].
  intros H. injection H as ->. reflexivity.
Qed.

Lemma hwname_loop_Ok_name (mem : list Z) (i j : nat) (hw : list Z)
    (j' : nat) (hw' : list Z) :
  outcome (hwname_loop mem i j hw) = Ok (j', hw') ->
  exists name,
    hw' = hw ++ name /\
    Forall (fun c => c <> 0) name /\
    take (length name) mem = name /\
    mem !! length name = Some 0 /\
    j' = match name with
         | [] => j
         | _ :: _ => (i + length name - 1)%nat
         end.
Proof.
  revert i j hw. induction mem as [|c mem IH]; intros i j hw H.
  - discriminate H.
  - cbn [hwname_loop] in H. destruct (c =? 0) eqn:Hc.
    + apply Z.eqb_eq in Hc. subst c. cbn [outcome] in H. injection H as <- <-.
      exists []. rewrite app_nil_r. repeat split. constructor.
    + cbn [outcome after_reads] in H. apply IH in H.
      destruct H as [name [-> [Hname [Htake [Hnul ->]]]]].
      apply Z.eqb_neq in Hc.
      exists (c :: name). rewrite <- app_assoc. cbn [app length take lookup list_lookup].
      split; [reflexivity|]. split; [constructor; assumption|].
      split; [rewrite Htake; reflexivity|]. split; [exact Hnul|].
      destruct name; cbn [length]; lia.
Qed.

Lemma deref_all_seq_Ok (f : VescFrame) (n : nat) :
  forall (b : nat) (bs : list Z),
    outcome (deref_all f (seq b n)) = Ok bs ->
    take n (drop b (drop (payload_first f) (frame_ f))) = bs /\ length bs = n.
Proof.
  induction n as [|n IH]; intros b bs H.
  - cbn in H. injection H as <-. split; reflexivity.
  - cbn [seq deref_all] in H.
    apply tbind_Ok_inv in H. destruct H as [c [Hc H]].
    apply tbind_Ok_inv in H. destruct H as [bs' [Hbs' H]].
    cbn [tret outcome] in H. injection H as <-.
    apply deref_Ok_inv in Hc. apply IH in Hbs'. destruct Hbs' as [Htake Hlen].
    rewrite (drop_S _ c b Hc). cbn [take length].
    rewrite Htake, Hlen. split; reflexivity.
Qed.

(** X11. Whenever the firmware-version constructor returns, the packet
    holds: the major and minor version from payload offsets 1 and 2; as name
    the run of non-zero bytes that starts at offset 3, which a zero byte
    follows; and, with [m] the name length but at least 1, the identifier
    from the 12 bytes at offset [3 + m + 1], the paired flag from offset
    [3 + m + 13] and the device version from offset [3 + m + 15]. *)
Theorem FWVersion_fields (r : VescFrame) (fw : FWVersion) :
  outcome (VescPacketFWVersion r) = Ok fw ->
  let mem := drop (payload_first r) (frame_ r) in
  let n := length (hwname_ fw) in
  let m := Nat.max n 1 in
  fw_packet fw = VescPacket_raw "FWVersion" r /\
  mem !! 1%nat = Some (major_ fw) /\
  mem !! 2%nat = Some (minor_ fw) /\
  Forall (fun c => c <> 0) (hwname_ fw) /\
  take n (drop 3 mem) = hwname_ fw /\
  mem !! (3 + n)%nat = Some 0 /\
  take 12 (drop (3 + m + 1) mem) = uuid_ fw /\
  length (uuid_ fw) = 12%nat /\
  (exists b, mem !! (3 + m + 13)%nat = Some b /\ paired_ fw = negb (b =? 0)) /\
  mem !! (3 + m + 15)%nat = Some (devVersion_ fw).
Proof.
  intros H mem n m. unfold VescPacketFWVersion in H.
  apply tbind_Ok_inv in H. destruct H as [major [Hmajor H]].
  apply tbind_Ok_inv in H. destruct H as [minor [Hminor H]].
  apply tbind_Ok_inv in H. destruct H as [[j hw] [Hloop H]].
  apply tbind_Ok_inv in H. destruct H as [uuid [Huuid H]].
  apply tbind_Ok_inv in H. destruct H as [paired [Hpaired H]].
  apply tbind_Ok_inv in H. destruct H as [dev [Hdev H]].
  cbn [tret outcome fst snd] in *. injection H as <-.
  cbn [fw_packet major_ minor_ hwname_ uuid_ paired_ devVersion_] in *.
  apply deref_Ok_inv in Hmajor, Hminor, Hpaired, Hdev.
  fold mem in Hmajor, Hminor, Hpaired, Hdev.
  apply hwname_loop_Ok_name in Hloop.
  destruct Hloop as [name [Hhw [Hname [Htake [Hnul Hj]]]]].
  cbn [app] in Hhw. subst hw.
  rewrite <- drop_drop in Htake, Hnul. fold mem in Htake, Hnul.
  rewrite lookup_drop in Hnul.
  assert (Hm : S j = m).
  { subst m n j. destruct name; cbn [length]; lia. }
  rewrite Hm in Huuid, Hpaired, Hdev.
  rewrite (map_add_seq (3 + m + 1) 12) in Huuid.
  apply deref_all_seq_Ok in Huuid. fold mem in Huuid. destruct Huuid as [Huuid Hlen].
  split; [reflexivity|]. split; [exact Hmajor|]. split; [exact Hminor|].
  split; [exact Hname|]. split; [exact Htake|]. split; [exact Hnul|].
  split; [exact Huuid|]. split; [exact Hlen|].
  split.
  - exists paired. split; [|reflexivity].
    replace (3 + m + 13)%nat with (3 + m + 1 + 12)%nat by lia. exact Hpaired.
  - replace (3 + m + 15)%nat with (3 + m + 2 + 12 + 1)%nat by lia. exact Hdev.
Qed.

Lemma FWVersion_fields_witness :
  exists fw,
    outcome (VescPacketFWVersion fw_frame_empty_name) = Ok fw /\
    hwname_ fw = [] /\
    take 12 (drop (3 + Nat.max 0 1 + 1)
               (drop (payload_first fw_frame_empty_name)
                     (frame_ fw_frame_empty_name))) = uuid_ fw /\
    drop (payload_first fw_frame_empty_name) (frame_ fw_frame_empty_name)
      !! (3 + Nat.max 0 1 + 15)%nat = Some (devVersion_ fw).
Proof.
  destruct (outcome (VescPacketFWVersion fw_frame_empty_name)) as [fw| |] eqn:Hfw;
    try (vm_compute in Hfw; discriminate).
  exists fw. split; [reflexivity|].
  assert (Hn : hwname_ fw = []) by (vm_compute in Hfw; injection Hfw as <-; reflexivity).
  pose proof (FWVersion_fields fw_frame_empty_name fw Hfw) as H.
  cbv zeta in H. rewrite Hn in H. cbn [length] in H.
  destruct H as (_ & _ & _ & _ & _ & _ & Hu & _ & _ & Hd).
  split; [exact Hn|]. split; [exact Hu | exact Hd].
Defined.

(** ** More on the scanning pass *)

Section PassFurther.

Variable createPacket : Buffer -> Z -> option VescPacket * Z.

(** X12. A buffer without any start-marker byte is consumed whole: the pass
    calls neither [createPacket] nor the handler, leaves the buffer empty and
    [bytes_needed] at the smallest frame size. *)
Theorem pass_without_marker (buffer_ : Buffer) :
  Forall (fun b => is_start_marker b = false) buffer_ ->
  packet_creation_pass createPacket buffer_ =
  Some {| buffer_after := [];
          bytes_needed_after := VESC_MIN_FRAME_SIZE;
          events := [EvLock; EvUnlock; EvSleep] |}.
Proof.
  intros Hnone. unfold packet_creation_pass.
  destruct buffer_ as [|b0 buffer_]; [reflexivity|].
  set (buf := b0 :: buffer_) in *.
  set (s0 := {| iter := 0; bytes_needed := VESC_MIN_FRAME_SIZE; trace := [EvLock] |}).
  destruct (scan_loop_reaches createPacket buf (length buf) (length buf) s0
              eq_refl (Nat.le_refl _)) with (n := 1%nat) as [needed Hreach].
  { intros j b _ Hb Hm. exfalso.
    rewrite (Forall_lookup_1 _ _ _ _ Hnone Hb) in Hm. discriminate Hm. }
  replace (S (length buf)) with (length buf + 1)%nat by lia.
  rewrite Hreach. cbn [scan_loop]. unfold scan_step. cbn [iter].
  rewrite (lookup_ge_None_2 buf (length buf)) by lia.
  cbn [iter trace bytes_needed]. rewrite Nat.eqb_refl, drop_all. reflexivity.
Qed.

Lemma scan_loop_Exited_inv (buffer_ : Buffer) (n : nat) :
  forall s s',
    (iter s <= length buffer_)%nat ->
    scan_loop createPacket n buffer_ s = Exited s' ->
    (iter s <= iter s' <= length buffer_)%nat /\
    (iter s' = length buffer_ \/
     exists b, buffer_ !! iter s' = Some b /\ is_start_marker b = true /\
               0 < bytes_needed s').
Proof.
  induction n as [|n IH]; intros s s' Hle H; [discriminate H|].
  cbn [scan_loop] in H. unfold scan_step in H.
  destruct (buffer_ !! iter s) as [b|] eqn:Hb.
  - pose proof (lookup_lt_Some _ _ _ Hb) as Hlt.
    destruct (is_start_marker b) eqn:Hm.
    + destruct (createPacket (drop (iter s) buffer_) (bytes_needed s))
        as [[p|] needed] eqn:Hc.
      * cbn [iter] in H.
        destruct (iter s + length (frame_ (raw p)) <=? length buffer_)%nat eqn:Hfit;
          [|discriminate H].
        apply Nat.leb_le in Hfit.
        apply IH in H; cbn [iter] in *; [|lia].
        destruct H as [Hi Hcase]. split; [lia | exact Hcase].
      * destruct (0 <? needed) eqn:Hn.
        -- injection H as <-. cbn [iter bytes_needed]. split; [lia|].
           right. exists b. apply Z.ltb_lt in Hn. repeat split; assumption.
        -- apply IH in H; cbn [iter] in *; [|lia].
           destruct H as [Hi Hcase]. split; [lia | exact Hcase].
    + apply IH in H; cbn [iter] in *; [|lia].
      destruct H as [Hi Hcase]. split; [lia | exact Hcase].
  - injection H as <-. apply lookup_ge_None in Hb. split; [lia|]. left. lia.
Qed.

(** X13. What a pass leaves behind. The retained bytes are a suffix of the
    buffer; they are empty or begin with a start marker (the candidate frame
    for which [createPacket] asked for more bytes); and [bytes_needed] is
    positive at the end of every pass. *)
Theorem pass_retains_candidate (buffer_ : Buffer) (r : pass_result) :
  packet_creation_pass createPacket buffer_ = Some r ->
  (exists consumed, buffer_ = consumed ++ buffer_after r) /\
  (buffer_after r = [] \/
   exists b rest, buffer_after r = b :: rest /\ is_start_marker b = true) /\
  0 < bytes_needed_after r.
Proof.
  unfold packet_creation_pass. destruct buffer_ as [|b0 buffer_].
  - intros H. injection H as <-. cbn. split; [exists []; reflexivity|].
    split; [left; reflexivity | unfold VESC_MIN_FRAME_SIZE; lia].
  - set (buf := b0 :: buffer_).
    set (s0 := {| iter := 0; bytes_needed := VESC_MIN_FRAME_SIZE; trace := [EvLock] |}).
    destruct (scan_loop createPacket (S (length buf)) buf s0) as [s|s|s] eqn:Hloop;
      try discriminate.
    intros H. injection H as <-. cbn [buffer_after bytes_needed_after].
    apply scan_loop_Exited_inv in Hloop; [|cbn; lia].
    destruct Hloop as [Hi Hcase].
    split; [exists (take (iter s) buf); symmetry; apply take_drop|].
    destruct Hcase as [Hend|[b [Hb [Hm Hn]]]].
    + rewrite Hend, Nat.eqb_refl, drop_all.
      split; [left; reflexivity | unfold VESC_MIN_FRAME_SIZE; lia].
    + split.
      * right. exists b, (drop (S (iter s)) buf).
        split; [apply drop_S; exact Hb | exact Hm].
      * destruct (_ =? _)%nat; [unfold VESC_MIN_FRAME_SIZE; lia | exact Hn].
Qed.

Lemma scan_loop_frames (buffer_ : Buffer) (ps : list VescPacket) :
  forall (s : scan_state) (n : nat),
    frames_at createPacket buffer_ (iter s) ps ->
    exists s',
      scan_loop createPacket (length ps + n) buffer_ s =
      scan_loop createPacket n buffer_ s' /\
      iter s' = length buffer_ /\
      trace s' = trace s ++ map EvHandler ps.
Proof.
  induction ps as [|p ps IH]; intros s n Hfr.
  - cbn [frames_at] in Hfr. exists s. cbn [length Nat.add map].
    rewrite app_nil_r. repeat split. exact Hfr.
  - cbn [frames_at] in Hfr. destruct Hfr as [[b [Hb Hm]] [Hp [Hpos Hrest]]].
    cbn [length Nat.add scan_loop].
    specialize (Hp (bytes_needed s)).
    destruct (createPacket (drop (iter s) buffer_) (bytes_needed s))
      as [o needed] eqn:Hc.
    cbn [fst] in Hp. subst o.
    assert (Hfit : (iter s + length (frame_ (raw p)) <= length buffer_)%nat).
    { clear - Hrest. destruct ps as [|q ps]; cbn [frames_at] in Hrest.
      - lia.
      - destruct Hrest as [[c [Hc _]] _]. apply lookup_lt_Some in Hc. lia. }
    rewrite (scan_step_packet createPacket buffer_ s b needed p Hb Hm Hc Hfit).
    destruct (IH {| iter := (iter s + length (frame_ (raw p)))%nat;
                    bytes_needed := needed;
                    trace := trace s ++ [EvHandler p] |} n Hrest)
      as [s' [Hloop [Hiter Htrace]]].
    exists s'. split; [exact Hloop|]. split; [exact Hiter|].
    rewrite Htrace. cbn [trace map]. rewrite <- app_assoc. reflexivity.
Qed.

Lemma frames_at_count (buffer_ : Buffer) (ps : list VescPacket) :
  forall k, frames_at createPacket buffer_ k ps ->
            (k + length ps <= length buffer_)%nat.
Proof.
  induction ps as [|p ps IH]; intros k Hfr; cbn [frames_at length] in *.
  - lia.
  - destruct Hfr as [_ [_ [Hpos Hrest]]]. apply IH in Hrest. lia.
Qed.

(** X14. Pipelining. When the buffer is a sequence of frames lying back to
    back, one pass calls the handler once for each of them, in buffer order,
    between the lock and the unlock, and consumes the whole buffer. *)
Theorem pass_dispatches_all_frames (buffer_ : Buffer) (ps : list VescPacket) :
  frames_at createPacket buffer_ 0 ps ->
  packet_creation_pass createPacket buffer_ =
  Some {| buffer_after := [];
          bytes_needed_after := VESC_MIN_FRAME_SIZE;
          events := [EvLock] ++ map EvHandler ps ++ [EvUnlock; EvSleep] |}.
Proof.
  intros Hfr. unfold packet_creation_pass.
  destruct buffer_ as [|b0 buffer_].
  - destruct ps as [|p ps]; [reflexivity|].
    cbn [frames_at] in Hfr. destruct Hfr as [[b [Hb _]] _]. discriminate Hb.
  - set (buf := b0 :: buffer_) in *.
    set (s0 := {| iter := 0; bytes_needed := VESC_MIN_FRAME_SIZE; trace := [EvLock] |}).
    pose proof (frames_at_count buf ps 0 Hfr) as Hcount.
    destruct (scan_loop_frames buf ps s0 (S (length buf) - length ps) Hfr)
      as [s' [Hloop [Hiter Htrace]]].
    replace (length ps + (S (length buf) - length ps))%nat with (S (length buf))
      in Hloop by lia.
    rewrite Hloop.
    destruct (S (length buf) - length ps)%nat as [|n] eqn:Hn; [lia|].
    cbn [scan_loop]. unfold scan_step.
    rewrite (lookup_ge_None_2 buf (iter s')) by lia.
    rewrite Hiter, Nat.eqb_refl, drop_all, Htrace. reflexivity.
Qed.

End PassFurther.

Lemma pass_without_marker_witness :
  packet_creation_pass (createPacket_spec vesc_ids) [0; 1; 4; 255; 7] =
  Some {| buffer_after := [];
          bytes_needed_after := VESC_MIN_FRAME_SIZE;
          events := [EvLock; EvUnlock; EvSleep] |}.
Proof.
  apply (pass_without_marker (createPacket_spec vesc_ids)). repeat constructor.
Defined.

Lemma pass_retains_candidate_witness :
  let r := {| buffer_after := 3 :: valid_frame; bytes_needed_after := 512;
              events := [EvLock; EvUnlock; EvSleep] |} in
  packet_creation_pass (createPacket_spec vesc_ids) (corrupt_frame ++ valid_frame)
    = Some r /\
  (exists consumed, corrupt_frame ++ valid_frame = consumed ++ buffer_after r) /\
  (buffer_after r = [] \/
   exists b rest, buffer_after r = b :: rest /\ is_start_marker b = true) /\
  0 < bytes_needed_after r.
Proof.
  intros r.
  assert (H : packet_creation_pass (createPacket_spec vesc_ids)
                (corrupt_frame ++ valid_frame) = Some r)
    by (vm_compute; reflexivity).
  split; [exact H|].
  exact (pass_retains_candidate (createPacket_spec vesc_ids) _ r H).
Defined.

Lemma pass_dispatches_all_frames_witness :
  packet_creation_pass (createPacket_spec vesc_ids) (valid_frame ++ valid_frame) =
  Some {| buffer_after := [];
          bytes_needed_after := VESC_MIN_FRAME_SIZE;
          events := [EvLock] ++ map EvHandler [valid_packet; valid_packet]
                    ++ [EvUnlock; EvSleep] |}.
Proof.
  apply (pass_dispatches_all_frames (createPacket_spec vesc_ids)
           (valid_frame ++ valid_frame) [valid_packet; valid_packet]).
  cbn [frames_at].
  split; [exists 2; split; reflexivity|].
  split; [intros needed_in; vm_compute; reflexivity|].
  split; [cbn; lia|].
  split; [exists 2; split; reflexivity|].
  split; [intros needed_in; vm_compute; reflexivity|].
  split; [cbn; lia | reflexivity].
Defined.

(** ** Firmware version: when the constructor returns *)





(** The name loop need not run through all three trailing bytes: in this
    frame the payload [0; 5; 2; 1; 14] has the CRC 0x00DA, the loop stops on
    the zero CRC byte at offset 5, and it is the identifier loop that reads
    offset 8, outside the frame buffer. *)
Example FWVersion_zero_crc_byte :
  let r := {| frame_ := [2; 5; 0; 5; 2; 1; 14; 0; 218; 3];
              payload_first := 2; payload_second := 7 |} in
  CRC_Calculate (payload r) CRC_TYPE = 0x00DA /\
  VescPacketFWVersion r =
  {| outcome := Undefined; reads := [1; 2; 3; 3; 4; 4; 5; 6; 7; 8]%nat |} /\
  frame_ r !! (payload_first r + 8)%nat = None.
Proof. vm_compute. repeat split. Qed.
